(** * rkt-monitor: the process-tree resource sampler

    A shallow embedding of the two implementations of the monitor that the
    repository holds:

    - [Proc]: the variant that reads [/proc] itself and asks [pgrep] for the
      children of a pid (recursive tree walk, integer CPU percentage computed
      by [GetCPUUsageUser]);
    - [Gops]: [main.go], the variant built on gopsutil (iterative tree walk
      over a growing [pids] slice, guarded against reaching a pid twice).

    Go's [uint64] is a [Z] with the wrap-around written out, a Go [string] is
    a [string] of bytes, a [panic] is the [Panicked] outcome, and the
    operating system (files under [/proc], the answers of [pgrep], the
    process table seen through gopsutil) is an explicit argument. *)

From Stdlib Require Import ZArith String Ascii List Lia Bool PrimFloat Uint63.
From stdpp Require Import base option list gmap strings.

Local Open Scope string_scope.
Local Open Scope Z_scope.

(** ** Outcomes of Go code that may panic *)

Inductive panic : Type :=
| ReadFailed (path : string)          (* panic(err) after ioutil.ReadFile *)
| CouldNotParse (text : string)       (* panic("couldn't parse: ...") *)
| NumError (text : string)            (* panic(err) after strconv.ParseUint / Atoi *)
| NoTotalTime                         (* panic("failed to read total time") *)
| UnrecognizedSizeLabel (text : string)
| PgrepFailed (pid : Z)               (* panic(err) in getChildrenPids *)
| DivideByZero                        (* runtime error: integer divide by zero *)
| IndexOutOfRange                     (* runtime error: index out of range *)
| LibraryError (pid : Z).             (* panic(err) on a gopsutil error *)

(** [OutOfFuel] is no outcome of the Go code: it marks a run of the model
    whose recursion or loop was cut by its bound. *)
Inductive outcome (A : Type) : Type :=
| Ret (a : A)
| Panicked (p : panic)
| OutOfFuel.

Arguments Ret {A} a.
Arguments Panicked {A} p.
Arguments OutOfFuel {A}.

Definition bind {A B} (m : outcome A) (k : A -> outcome B) : outcome B :=
  match m with
  | Ret a => k a
  | Panicked p => Panicked p
  | OutOfFuel => OutOfFuel
  end.

Notation "'do' x <- m ; k" := (bind m (fun x => k))
  (at level 10, x name, m at level 100, k at level 200).

Definition returns {A} (m : outcome A) : bool :=
  match m with Ret _ => true | _ => false end.

(** ** uint64 arithmetic *)

Definition maxUint64 : Z := 2 ^ 64 - 1.

Definition wrap64 (z : Z) : Z := z mod 2 ^ 64.

Definition add64 (a b : Z) : Z := wrap64 (a + b).
Definition sub64 (a b : Z) : Z := wrap64 (a - b).
Definition mul64 (a b : Z) : Z := wrap64 (a * b).

(** Integer division panics on a zero divisor. *)
Definition div64 (a b : Z) : outcome Z :=
  if b =? 0 then Panicked DivideByZero else Ret (a / b).

Definition is_uint64 (z : Z) : Prop := 0 <= z <= maxUint64.

(** ** Package strconv *)

Module strconv.

Inductive num_error : Type := ErrSyntax | ErrRange.

Definition is_digit (c : ascii) : bool :=
  let n := Z.of_nat (nat_of_ascii c) in (48 <=? n) && (n <=? 57).

Definition digit_val (c : ascii) : Z := Z.of_nat (nat_of_ascii c) - 48.

Definition digit_char (d : Z) : ascii := ascii_of_nat (Z.to_nat (48 + d)).

(** [formatBits] in base 10: the digits are produced from the least
    significant one, in front of what has been written so far.  A uint64
    has at most 20 decimal digits. *)
Fixpoint formatBits (fuel : nat) (u : Z) (a : string) : string :=
  match fuel with
  | O => a
  | S fuel' =>
      let a' := String (digit_char (u mod 10)) a in
      if u / 10 =? 0 then a' else formatBits fuel' (u / 10) a'
  end.

Definition FormatUint (u : Z) : string := formatBits 20 u "".

(** Whether every byte is a decimal digit. *)
Fixpoint allDigits (s : string) : bool :=
  match s with
  | EmptyString => true
  | String c s' => is_digit c && allDigits s'
  end.

Definition cutoff : Z := maxUint64 / 10 + 1.

(** The loop of [ParseUint(s, 10, 64)] over the bytes of [s], from the
    value [n] read so far.  The value returned next to an error is the one
    Go returns (0 for a syntax error, the maximum for a range error). *)
Fixpoint parseLoop (s : string) (n : Z) : Z * option num_error :=
  match s with
  | EmptyString => (n, None)
  | String c s' =>
      if is_digit c then
        if cutoff <=? n then (maxUint64, Some ErrRange)
        else
          let n10 := mul64 n 10 in
          let n1 := add64 n10 (digit_val c) in
          if (n1 <? n10) || (maxUint64 <? n1) then (maxUint64, Some ErrRange)
          else parseLoop s' n1
      else (0, Some ErrSyntax)
  end.

Definition ParseUint (s : string) : Z * option num_error :=
  match s with
  | EmptyString => (0, Some ErrSyntax)
  | _ => parseLoop s 0
  end.

(** [Itoa]: a signed decimal. *)
Definition Itoa (i : Z) : string :=
  if i <? 0 then String "-" (FormatUint (- i)) else FormatUint i.

(** [Atoi] is [ParseInt(s, 10, 0)] with an [int] of 64 bits. *)
Definition Atoi (s : string) : Z * option num_error :=
  match s with
  | EmptyString => (0, Some ErrSyntax)
  | String c s' =>
      let neg := Ascii.eqb c "-"%char in
      let body := if Ascii.eqb c "+"%char || neg then s' else s in
      match ParseUint body with
      | (_, Some ErrSyntax) => (0, Some ErrSyntax)
      | (un, _) =>
          if negb neg && (2 ^ 63 <=? un) then (2 ^ 63 - 1, Some ErrRange)
          else if neg && (2 ^ 63 <? un) then (- 2 ^ 63, Some ErrRange)
          else (if neg then - un else un, None)
      end
  end.

End strconv.

(** ** Package fmt: [Sscanf] on the formats the monitor uses

    The four calls of [parseLabeledSize] have a format made of the verb
    [%d], one space and a literal.  The model follows [doScanf] for such a
    format, reading the input byte by byte (the files under [/proc] are
    ASCII): the verb is scanned by [scanUint]; the rest of the format is
    matched by [advance].  [doScanf] counts an operand as soon as
    [scanOne] has stored it; an error raised later, while the rest of the
    format is matched, is recovered by its [errorHandler] and returned next
    to that count.  So the count that [Sscanf] returns is the number of
    operands stored, whatever happens to the rest of the format afterwards;
    a mismatch there is reported through the error only. *)

Module fmt.

Inductive scan_error : Type :=
| UnexpectedNewline
| UnexpectedEOF
| ExpectedInteger
| BadNumber (e : strconv.num_error)
| ExpectedSpace
| NewlineInInput
| InputDoesNotMatchFormat
| UnsupportedFormat.

Definition is_newline (c : ascii) : bool := Ascii.eqb c "010"%char.

Definition isSpace (c : ascii) : bool :=
  let n := Z.of_nat (nat_of_ascii c) in
  ((9 <=? n) && (n <=? 13)) || (n =? 32).

(** [SkipSpace] of a scanner made by [Sscanf], for which a newline is not
    a space. *)
Fixpoint SkipSpace (inp : string) : scan_error + string :=
  match inp with
  | EmptyString => inr EmptyString
  | String c rest =>
      if is_newline c then inl UnexpectedNewline
      else if isSpace c then SkipSpace rest
      else inr inp
  end.

(** The set [decimalDigits] given to [accept]: since Go 1.13 it holds the
    underscore, which [ParseUint] in base 10 then refuses. *)
Definition accepted (c : ascii) : bool :=
  strconv.is_digit c || Ascii.eqb c "_"%char.

Fixpoint acceptAll (inp : string) : string * string :=
  match inp with
  | EmptyString => (EmptyString, EmptyString)
  | String c rest =>
      if accepted c then
        let '(tok, rest') := acceptAll rest in (String c tok, rest')
      else (EmptyString, inp)
  end.

(** What the scan of a number stops at: the end of the input or a byte
    that [accept] refuses. *)
Definition stops (rest : string) : bool :=
  match rest with
  | EmptyString => true
  | String c _ => negb (accepted c)
  end.

Definition scanNumber (inp : string) : scan_error + (string * string) :=
  match inp with
  | EmptyString => inl UnexpectedEOF
  | String c _ =>
      if accepted c then inr (acceptAll inp) else inl ExpectedInteger
  end.

Definition scanUint (inp : string) : scan_error + (Z * string) :=
  match SkipSpace inp with
  | inl e => inl e
  | inr EmptyString => inl UnexpectedEOF
  | inr inp1 =>
      match scanNumber inp1 with
      | inl e => inl e
      | inr (tok, rest) =>
          match strconv.ParseUint tok with
          | (i, None) => inr (i, rest)
          | (_, Some e) => inl (BadNumber e)
          end
      end
  end.

Fixpoint skipBlanks (inp : string) : string :=
  match inp with
  | EmptyString => EmptyString
  | String c rest =>
      if isSpace c && negb (is_newline c) then skipBlanks rest else inp
  end.

(** [advance] over a format without verb and without newline.
    [inRun] says that the previous byte of the format was a space, whose
    run has been matched against the input already. *)
Fixpoint advance (format : string) (inRun : bool) (inp : string)
  : scan_error + string :=
  match format with
  | EmptyString => inr inp
  | String fc format' =>
      if is_newline fc || Ascii.eqb fc "%"%char then inl UnsupportedFormat
      else if isSpace fc then
        if inRun then advance format' true inp
        else
          match inp with
          | EmptyString => advance format' true EmptyString
          | String ic _ =>
              if negb (isSpace ic) then inl ExpectedSpace
              else if is_newline ic then inl NewlineInInput
              else advance format' true (skipBlanks inp)
          end
      else
        match inp with
        | EmptyString => inl UnexpectedEOF
        | String ic inp' =>
            if Ascii.eqb fc ic then advance format' false inp'
            else inl InputDoesNotMatchFormat
        end
  end.

(** [Sscanf(str, format, &num)] for a format [%d] followed by spaces and
    literals: the count, the error, and the value of [num] afterwards. *)
Definition Sscanf (str format : string) (num : Z)
  : Z * option scan_error * Z :=
  match format with
  | String "%" (String "d" tail) =>
      match scanUint str with
      | inl e => (0, Some e, num)
      | inr (v, rest) =>
          match advance tail false rest with
          | inl e => (1, Some e, v)
          | inr _ => (1, None, v)
          end
      end
  | _ => (0, Some UnsupportedFormat, num)
  end.

End fmt.

(** ** Code shared by both variants *)

(** [formatSize], the same text in both files. *)
Definition formatSize (size : Z) : string :=
  if 1024 * 1024 * 1024 <? size then
    strconv.FormatUint (size / (1024 * 1024 * 1024)) +:+ " gB"
  else if 1024 * 1024 <? size then
    strconv.FormatUint (size / (1024 * 1024)) +:+ " mB"
  else if 1024 <? size then
    strconv.FormatUint (size / 1024) +:+ " kB"
  else
    strconv.FormatUint size +:+ " B".

(** [parseLabeledSize]: the error of [Sscanf] is dropped, the count alone
    decides. *)
Definition parseLabeledSize (size : string) : outcome Z :=
  let num := 0 in
  let '(i, _, num) := fmt.Sscanf size "%d B" num in
  if i =? 1 then Ret num else
  let '(i, _, num) := fmt.Sscanf size "%d kB" num in
  if i =? 1 then Ret (mul64 num 1024) else
  let '(i, _, num) := fmt.Sscanf size "%d mB" num in
  if i =? 1 then Ret (mul64 (mul64 num 1024) 1024) else
  let '(i, _, num) := fmt.Sscanf size "%d gB" num in
  if i =? 1 then Ret (mul64 (mul64 (mul64 num 1024) 1024) 1024) else
  Panicked (UnrecognizedSizeLabel size).

(** ** Package strings, on bytes *)

Module gostrings.

(** [Split(s, sep)] for a separator of one byte. *)
Fixpoint Split (s : string) (sep : ascii) : list string :=
  match s with
  | EmptyString => [EmptyString]
  | String c s' =>
      if Ascii.eqb c sep then EmptyString :: Split s' sep
      else
        match Split s' sep with
        | h :: t => String c h :: t
        | [] => [String c EmptyString]
        end
  end.

Fixpoint trimLeft (s : string) : string :=
  match s with
  | EmptyString => EmptyString
  | String c s' => if fmt.isSpace c then trimLeft s' else s
  end.

Fixpoint trimRight (s : string) : string :=
  match s with
  | EmptyString => EmptyString
  | String c s' =>
      match trimRight s' with
      | EmptyString => if fmt.isSpace c then EmptyString else String c EmptyString
      | r => String c r
      end
  end.

Definition TrimSpace (s : string) : string := trimRight (trimLeft s).

Definition HasPrefix (s p : string) : bool := String.prefix p s.

End gostrings.

Fixpoint foldM {A B : Type} (f : B -> A -> outcome B) (l : list A) (b : B)
  : outcome B :=
  match l with
  | [] => Ret b
  | a :: l' => do b' <- f b a; foldM f l' b'
  end.

(** ** The variant that reads /proc *)

Module Proc.

Record ProcessStatus : Type := mkStatus {
  Pid : Z;
  Name : string;
  FDSize : Z;
  VmPeak : Z;
  VmSize : Z;
  VmHWM : Z;
  VmRSS : Z;
  Threads : Z;
  Utime : Z;
  LastUtime : Z;
  Stime : Z;
  LastStime : Z;
  TimeTotal : Z;
  LastTimeTotal : Z
}.

(** The zero value of the struct. *)
Definition zeroStatus : ProcessStatus :=
  mkStatus 0 "" 0 0 0 0 0 0 0 0 0 0 0 0.

Definition setName (v : string) (s : ProcessStatus) : ProcessStatus :=
  mkStatus (Pid s) v (FDSize s) (VmPeak s) (VmSize s) (VmHWM s) (VmRSS s)
    (Threads s) (Utime s) (LastUtime s) (Stime s) (LastStime s)
    (TimeTotal s) (LastTimeTotal s).
Definition setFDSize (v : Z) (s : ProcessStatus) : ProcessStatus :=
  mkStatus (Pid s) (Name s) v (VmPeak s) (VmSize s) (VmHWM s) (VmRSS s)
    (Threads s) (Utime s) (LastUtime s) (Stime s) (LastStime s)
    (TimeTotal s) (LastTimeTotal s).
Definition setVmPeak (v : Z) (s : ProcessStatus) : ProcessStatus :=
  mkStatus (Pid s) (Name s) (FDSize s) v (VmSize s) (VmHWM s) (VmRSS s)
    (Threads s) (Utime s) (LastUtime s) (Stime s) (LastStime s)
    (TimeTotal s) (LastTimeTotal s).
Definition setVmSize (v : Z) (s : ProcessStatus) : ProcessStatus :=
  mkStatus (Pid s) (Name s) (FDSize s) (VmPeak s) v (VmHWM s) (VmRSS s)
    (Threads s) (Utime s) (LastUtime s) (Stime s) (LastStime s)
    (TimeTotal s) (LastTimeTotal s).
Definition setVmHWM (v : Z) (s : ProcessStatus) : ProcessStatus :=
  mkStatus (Pid s) (Name s) (FDSize s) (VmPeak s) (VmSize s) v (VmRSS s)
    (Threads s) (Utime s) (LastUtime s) (Stime s) (LastStime s)
    (TimeTotal s) (LastTimeTotal s).
Definition setVmRSS (v : Z) (s : ProcessStatus) : ProcessStatus :=
  mkStatus (Pid s) (Name s) (FDSize s) (VmPeak s) (VmSize s) (VmHWM s) v
    (Threads s) (Utime s) (LastUtime s) (Stime s) (LastStime s)
    (TimeTotal s) (LastTimeTotal s).
Definition setThreads (v : Z) (s : ProcessStatus) : ProcessStatus :=
  mkStatus (Pid s) (Name s) (FDSize s) (VmPeak s) (VmSize s) (VmHWM s)
    (VmRSS s) v (Utime s) (LastUtime s) (Stime s) (LastStime s)
    (TimeTotal s) (LastTimeTotal s).
Definition setUtime (v : Z) (s : ProcessStatus) : ProcessStatus :=
  mkStatus (Pid s) (Name s) (FDSize s) (VmPeak s) (VmSize s) (VmHWM s)
    (VmRSS s) (Threads s) v (LastUtime s) (Stime s) (LastStime s)
    (TimeTotal s) (LastTimeTotal s).
Definition setStime (v : Z) (s : ProcessStatus) : ProcessStatus :=
  mkStatus (Pid s) (Name s) (FDSize s) (VmPeak s) (VmSize s) (VmHWM s)
    (VmRSS s) (Threads s) (Utime s) (LastUtime s) v (LastStime s)
    (TimeTotal s) (LastTimeTotal s).
Definition setTimeTotal (v : Z) (s : ProcessStatus) : ProcessStatus :=
  mkStatus (Pid s) (Name s) (FDSize s) (VmPeak s) (VmSize s) (VmHWM s)
    (VmRSS s) (Threads s) (Utime s) (LastUtime s) (Stime s) (LastStime s)
    v (LastTimeTotal s).

(** [100 * (ps.Utime - ps.LastUtime) / (ps.TimeTotal - ps.LastTimeTotal)] *)
Definition GetCPUUsageUser (ps : ProcessStatus) : outcome Z :=
  div64 (mul64 100 (sub64 (Utime ps) (LastUtime ps)))
        (sub64 (TimeTotal ps) (LastTimeTotal ps)).

Definition GetCPUUsageKernel (ps : ProcessStatus) : outcome Z :=
  div64 (mul64 100 (sub64 (Stime ps) (LastStime ps)))
        (sub64 (TimeTotal ps) (LastTimeTotal ps)).

(** The operating system as one tick sees it: the files that can be read,
    and what [pgrep -P pid] prints together with whether it reported an
    error. *)
Record OS : Type := mkOS {
  ReadFile : string -> option string;
  pgrep : Z -> string * bool
}.

Definition procPath (pid : Z) (file : string) : string :=
  "/proc/" +:+ strconv.Itoa pid +:+ "/" +:+ file.

(** The loop over [lastStatuses]: the last entry with the pid wins. *)
Definition lastStatusOf (pid : Z) (lastStatuses : list ProcessStatus)
  : ProcessStatus :=
  fold_left (fun lastStatus s => if Pid s =? pid then s else lastStatus)
            lastStatuses zeroStatus.

Definition parseUintOrPanic (text : string) : outcome Z :=
  match strconv.ParseUint text with
  | (n, None) => Ret n
  | (_, Some _) => Panicked (NumError text)
  end.

(** One line of /proc/pid/status. *)
Definition statusLine (status : ProcessStatus) (line : string)
  : outcome ProcessStatus :=
  if String.eqb line "" then Ret status
  else
    match gostrings.Split line ":" with
    | [t0; t1] =>
        let key := gostrings.TrimSpace t0 in
        let val := gostrings.TrimSpace t1 in
        if String.eqb key "Name" then Ret (setName val status)
        else if String.eqb key "FDSize" then
          do n <- parseUintOrPanic val; Ret (setFDSize n status)
        else if String.eqb key "VmPeak" then
          do n <- parseLabeledSize val; Ret (setVmPeak n status)
        else if String.eqb key "VmSize" then
          do n <- parseLabeledSize val; Ret (setVmSize n status)
        else if String.eqb key "VmHWM" then
          do n <- parseLabeledSize val; Ret (setVmHWM n status)
        else if String.eqb key "VmRSS" then
          do n <- parseLabeledSize val; Ret (setVmRSS n status)
        else if String.eqb key "Threads" then
          do n <- parseUintOrPanic val; Ret (setThreads n status)
        else Ret status
    | _ => Panicked (CouldNotParse line)
    end.

(** One line of /proc/stat: the numbers of a line that starts with
    ["cpu "] are added to the total. *)
Definition statLine (total : Z) (line : string) : Z :=
  if negb (gostrings.HasPrefix line "cpu ") then total
  else
    fold_left
      (fun total token =>
         fold_left
           (fun total token =>
              match strconv.ParseUint token with
              | (num, None) => add64 total num
              | (_, Some _) => total
              end)
           (gostrings.Split token " ") total)
      (gostrings.Split line "009") total.

Definition getProcStatus (os : OS) (pid : Z)
           (lastStatuses : list ProcessStatus) : outcome ProcessStatus :=
  let lastStatus := lastStatusOf pid lastStatuses in
  let status :=
    mkStatus pid "" 0 0 0 0 0 0 0 (Utime lastStatus) 0 (Stime lastStatus)
             0 (TimeTotal lastStatus) in
  match ReadFile os (procPath pid "status") with
  | None => Panicked (ReadFailed (procPath pid "status"))
  | Some blob =>
      do status <- foldM statusLine (gostrings.Split blob "010") status;
      match ReadFile os "/proc/stat" with
      | None => Panicked (ReadFailed "/proc/stat")
      | Some blob =>
          let total :=
            fold_left statLine (gostrings.Split blob "010") (TimeTotal status) in
          let status := setTimeTotal total status in
          if TimeTotal status =? 0 then Panicked NoTotalTime
          else
            match ReadFile os (procPath pid "stat") with
            | None => Panicked (ReadFailed (procPath pid "stat"))
            | Some blob =>
                let tokens := gostrings.Split blob " " in
                if (Z.of_nat (length tokens) <? 15) then
                  Panicked (CouldNotParse blob)
                else
                  do utime <- parseUintOrPanic (nth 13 tokens "");
                  let status := setUtime utime status in
                  do stime <- parseUintOrPanic (nth 14 tokens "");
                  Ret (setStime stime status)
            end
      end
  end.

Definition getChildrenPids (os : OS) (pid : Z) : outcome (list Z) :=
  let '(blob, failed) := pgrep os pid in
  if String.eqb blob "" then Ret []
  else if failed then Panicked (PgrepFailed pid)
  else
    foldM
      (fun pids str =>
         if String.eqb str "" then Ret pids
         else
           match strconv.Atoi str with
           | (childPid, None) => Ret (pids ++ [childPid])%list
           | (_, Some _) => Panicked (NumError str)
           end)
      (gostrings.Split blob "010") [].

(** The recursive walk; [fuel] bounds the depth of the recursion. *)
Fixpoint getUsage (fuel : nat) (os : OS) (pid : Z)
         (lastStatuses : list ProcessStatus) {struct fuel}
  : outcome (list ProcessStatus) :=
  match fuel with
  | O => OutOfFuel
  | S fuel' =>
      do status <- getProcStatus os pid lastStatuses;
      do children <- getChildrenPids os pid;
      do childrenStatuses <-
        foldM (fun childrenStatuses child =>
                 do sub <- getUsage fuel' os child lastStatuses;
                 Ret (childrenStatuses ++ sub)%list)
              children [];
      Ret (status :: childrenStatuses)
  end.

(** [printUsage] evaluates [GetCPUUsageUser] for every status; the text
    it prints is not modelled. *)
Definition printUsage (statuses : list ProcessStatus) : outcome unit :=
  foldM (fun _ status => do _ <- GetCPUUsageUser status; Ret tt) statuses tt.

(** [usages[process.Pid] = append(usages[process.Pid], process)] for every
    status of the tick. *)
Definition record (usages : gmap Z (list ProcessStatus))
           (usage : list ProcessStatus) : gmap Z (list ProcessStatus) :=
  fold_left
    (fun usages process =>
       <[Pid process := (default [] (usages !! Pid process) ++ [process])%list]>
         usages)
    usage usages.

(** The sampling loop of [runRktMonitor]: one element of [ticks] for every
    iteration that starts before [timeToEnd], holding the system as that
    iteration sees it. *)
Fixpoint sampling (fuel : nat) (flagVerbose : bool) (ticks : list OS)
         (pid : Z) (usage : list ProcessStatus)
         (usages : gmap Z (list ProcessStatus))
  : outcome (gmap Z (list ProcessStatus)) :=
  match ticks with
  | [] => Ret usages
  | os :: ticks' =>
      do usage <- getUsage fuel os pid usage;
      do _ <- (if flagVerbose then printUsage usage else Ret tt);
      sampling fuel flagVerbose ticks' pid usage (record usages usage)
  end.

Record Summary : Type := mkSummary {
  sumName : string;
  sumPid : Z;
  secondsAlive : Z;
  avgCPU : Z;
  avgMem : string;
  peakMem : string
}.

(** The sums over one history. *)
Definition accumulate (acc : Z * Z * Z) (process : ProcessStatus)
  : outcome (Z * Z * Z) :=
  let '(avgCPU, avgMem, peakMem) := acc in
  do cpu <- GetCPUUsageUser process;
  Ret (add64 avgCPU cpu,
       add64 avgMem (VmSize process),
       if peakMem <? VmPeak process then VmPeak process else peakMem).

(** The body of the report loop for one [processHistory]. *)
Definition summarize (processHistory : list ProcessStatus) : outcome Summary :=
  do sums <- foldM accumulate processHistory (0, 0, 0);
  let '(avgCPU, avgMem, peakMem) := sums in
  let len := Z.of_nat (length processHistory) in
  do avgCPU <- div64 avgCPU len;
  do avgMem <- div64 avgMem len;
  match processHistory with
  | [] => Panicked IndexOutOfRange
  | first :: _ =>
      Ret (mkSummary (Name first) (Pid first) len avgCPU
                     (formatSize avgMem) (formatSize peakMem))
  end.

(** [runRktMonitor] from the start of the sampling loop on; the report
    follows the order of [map_to_list], Go leaves the order open. *)
Definition runRktMonitor (fuel : nat) (flagVerbose : bool) (ticks : list OS)
           (pid : Z) : outcome (list Summary) :=
  do usages <- sampling fuel flagVerbose ticks pid [] ∅;
  foldM (fun report entry =>
           do s <- summarize (snd entry); Ret (report ++ [s])%list)
        (map_to_list usages) [].

(** [pad]: the loop [for i := len(str); i < 16; i++] appends one space in
    each of its turns. *)
Fixpoint padLoop (turns : nat) (str : string) : string :=
  match turns with
  | O => str
  | S turns' => padLoop turns' (str +:+ " ")
  end.

Definition pad (str : string) : string :=
  padLoop (16 - String.length str) str.

End Proc.

(** ** main.go: the variant on gopsutil *)

Module Gops.

Definition float64 : Type := PrimFloat.float.

Record ProcessStatus : Type := mkStatus {
  Pid : Z;
  Name : string;
  CPU : float64;
  VMS : Z;
  RSS : Z;
  Swap : Z
}.

Inductive error : Type :=
| NoSuchProcess (pid : Z)
| NameFailed (pid : Z)
| CPUPercentFailed (pid : Z)
| MemoryInfoFailed (pid : Z)
| ChildrenFailed (pid : Z).

(** What [proc.Children()] answers: the children, the exit status 1 of the
    underlying command that stands for "no children", or another error. *)
Inductive children_result : Type :=
| ChildrenOf (children : list Z)
| NoChildren
| ChildrenError.

Record MemoryInfoStat : Type := mkMem { mRSS : Z; mVMS : Z; mSwap : Z }.

(** The process table as gopsutil shows it during one tick. *)
Record Library : Type := mkLibrary {
  NewProcess : Z -> bool;
  procName : Z -> option string;
  CPUPercent : Z -> option float64;
  MemoryInfo : Z -> option MemoryInfoStat;
  Children : Z -> children_result
}.

Definition getProcStatus (lib : Library) (p : Z) : error + ProcessStatus :=
  match procName lib p with
  | None => inl (NameFailed p)
  | Some n =>
      match CPUPercent lib p with
      | None => inl (CPUPercentFailed p)
      | Some c =>
          match MemoryInfo lib p with
          | None => inl (MemoryInfoFailed p)
          | Some m => inr (mkStatus p n c (mVMS m) (mRSS m) (mSwap m))
          end
      end
  end.

(** The [childloop]: a child whose pid is in [pids] already is skipped. *)
Definition addChildren (pids children : list Z) : list Z :=
  fold_left
    (fun pids child =>
       if existsb (fun p => p =? child) pids then pids
       else (pids ++ [child])%list)
    children pids.

(** The loop [for i := 0; i < len(pids); i++] of [getUsage], with the
    package variable [pidMap] (the pids that have a cached handle) threaded
    through.  [None] when [fuel] iterations were not enough. *)
Fixpoint getUsageLoop (fuel : nat) (lib : Library) (pidMap : gset Z)
         (statuses : list ProcessStatus) (pids : list Z) (i : nat)
  : gset Z * option (error + list ProcessStatus) :=
  match fuel with
  | O => (pidMap, None)
  | S fuel' =>
      match pids !! i with
      | None => (pidMap, Some (inr statuses))
      | Some p =>
          if negb (bool_decide (p ∈ pidMap)) && negb (NewProcess lib p)
          then (pidMap, Some (inl (NoSuchProcess p)))
          else
            let pidMap := {[p]} ∪ pidMap in
            match getProcStatus lib p with
            | inl err => (pidMap, Some (inl err))
            | inr s =>
                let statuses := (statuses ++ [s])%list in
                match Children lib p with
                | NoChildren =>
                    getUsageLoop fuel' lib pidMap statuses pids (S i)
                | ChildrenError => (pidMap, Some (inl (ChildrenFailed p)))
                | ChildrenOf children =>
                    getUsageLoop fuel' lib pidMap statuses
                                 (addChildren pids children) (S i)
                end
            end
      end
  end.

Definition getUsage (fuel : nat) (lib : Library) (pidMap : gset Z) (pid : Z)
  : gset Z * option (error + list ProcessStatus) :=
  getUsageLoop fuel lib pidMap [] [pid] 0.

Definition record (usages : gmap Z (list ProcessStatus))
           (usage : list ProcessStatus) : gmap Z (list ProcessStatus) :=
  fold_left
    (fun usages ps =>
       <[Pid ps := (default [] (usages !! Pid ps) ++ [ps])%list]> usages)
    usage usages.

(** The sampling loop of [runRktMonitor]; an error of [getUsage] is a
    panic, a root that is gone after the tick ends the loop. *)
Fixpoint sampling (fuel : nat) (ticks : list Library) (pidMap : gset Z)
         (pid : Z) (usages : gmap Z (list ProcessStatus))
  : outcome (gmap Z (list ProcessStatus)) :=
  match ticks with
  | [] => Ret usages
  | lib :: ticks' =>
      match getUsage fuel lib pidMap pid with
      | (_, None) => OutOfFuel
      | (_, Some (inl _)) => Panicked (LibraryError pid)
      | (pidMap, Some (inr usage)) =>
          let usages := record usages usage in
          if NewProcess lib pid then sampling fuel ticks' pidMap pid usages
          else Ret usages
      end
  end.

Record Summary : Type := mkSummary {
  sumName : string;
  sumPid : Z;
  secondsAlive : Z;
  avgCPU : float64;
  avgMem : string;
  peakMem : string
}.

Definition accumulate (acc : float64 * Z * Z) (p : ProcessStatus)
  : float64 * Z * Z :=
  let '(avgCPU, avgMem, peakMem) := acc in
  (PrimFloat.add avgCPU (CPU p), add64 avgMem (RSS p),
   if peakMem <? RSS p then RSS p else peakMem).

Definition float64_of_len (n : nat) : float64 :=
  PrimFloat.of_uint63 (Uint63.of_Z (Z.of_nat n)).

Definition summarize (processHistory : list ProcessStatus) : outcome Summary :=
  let '(avgCPU, avgMem, peakMem) :=
    fold_left accumulate processHistory (PrimFloat.zero, 0, 0) in
  let avgCPU := PrimFloat.div avgCPU (float64_of_len (length processHistory)) in
  do avgMem <- div64 avgMem (Z.of_nat (length processHistory));
  match processHistory with
  | [] => Panicked IndexOutOfRange
  | first :: _ =>
      Ret (mkSummary (Name first) (Pid first)
                     (Z.of_nat (length processHistory)) avgCPU
                     (formatSize avgMem) (formatSize peakMem))
  end.

Definition runRktMonitor (fuel : nat) (ticks : list Library) (pid : Z)
  : outcome (list Summary) :=
  do usages <- sampling fuel ticks ∅ pid ∅;
  foldM (fun report entry =>
           do s <- summarize (snd entry); Ret (report ++ [s])%list)
        (map_to_list usages) [].

End Gops.

(** ** main.go: the cleanup *)

Module Cleanup.

(** What [os.FindProcess] answers. *)
Inductive find_result : Type :=
| Found
| AlreadyFinished            (* the error "os: process already finished" *)
| FindFailed.                (* any other error *)

Inductive error : Type :=
| WalkError (e : Gops.error)
| FindError (pid : Z)
| KillError (pid : Z).

(** The answers of the operating system to [os.FindProcess] and to [Kill],
    which may depend on the pids killed so far in this cleanup. *)
Record Signals : Type := mkSignals {
  FindProcess : list Z -> Z -> find_result;
  Kill : list Z -> Z -> bool
}.

(** The first loop of [killAllChildren]: the children of every process are
    appended to [processes], without a look at what it holds already.
    [None] when [fuel] iterations were not enough. *)
Fixpoint collect (fuel : nat) (lib : Gops.Library) (processes : list Z) (i : nat)
  : option (Gops.error + list Z) :=
  match fuel with
  | O => None
  | S fuel' =>
      match processes !! i with
      | None => Some (inr processes)
      | Some p =>
          match Gops.Children lib p with
          | Gops.NoChildren => collect fuel' lib processes (S i)
          | Gops.ChildrenError => Some (inl (Gops.ChildrenFailed p))
          | Gops.ChildrenOf children =>
              collect fuel' lib (processes ++ children)%list (S i)
          end
      end
  end.

(** The second loop: the pids that [Kill] was sent to with success, in
    their order, and the error that ended the loop, if one did. *)
Fixpoint killEach (sig : Signals) (processes killed : list Z)
  : list Z * option error :=
  match processes with
  | [] => (killed, None)
  | p :: processes' =>
      match FindProcess sig killed p with
      | AlreadyFinished => killEach sig processes' killed
      | FindFailed => (killed, Some (FindError p))
      | Found =>
          if Kill sig killed p then killEach sig processes' (killed ++ [p])%list
          else (killed, Some (KillError p))
      end
  end.

Definition killAllChildren (fuel : nat) (lib : Gops.Library) (sig : Signals)
           (pid : Z) : option (list Z * option error) :=
  if negb (Gops.NewProcess lib pid) then
    Some ([], Some (WalkError (Gops.NoSuchProcess pid)))
  else
    match collect fuel lib [pid] 0 with
    | None => None
    | Some (inl e) => Some ([], Some (WalkError e))
    | Some (inr processes) => Some (killEach sig processes [])
    end.

End Cleanup.

(** ** A small system to run the model on *)

Module Sample.

Definition nl : string := String "010" EmptyString.
Definition tab : string := String "009" EmptyString.

Definition statusFile (name vm : string) : string :=
  "Name:" +:+ tab +:+ name +:+ nl +:+
  "FDSize:" +:+ tab +:+ "64" +:+ nl +:+
  "VmPeak:" +:+ tab +:+ "  " +:+ vm +:+ " kB" +:+ nl +:+
  "VmSize:" +:+ tab +:+ "  " +:+ vm +:+ " kB" +:+ nl +:+
  "VmHWM:" +:+ tab +:+ "    100 kB" +:+ nl +:+
  "VmRSS:" +:+ tab +:+ "     90 kB" +:+ nl +:+
  "Threads:" +:+ tab +:+ "1" +:+ nl.

Definition statFile (pid comm utime stime : string) : string :=
  pid +:+ " (" +:+ comm +:+ ") S 1 1 1 0 -1 4194304 100 0 0 0 " +:+
  utime +:+ " " +:+ stime +:+ " 0 0 20 0 1 0 100 1000 10" +:+ nl.

Definition procStat (user idle : string) : string :=
  "cpu  " +:+ user +:+ " 0 0 " +:+ idle +:+ " 0 0 0 0 0 0" +:+ nl +:+
  "cpu0 " +:+ user +:+ " 0 0 " +:+ idle +:+ " 0 0 0 0 0 0" +:+ nl +:+
  "intr 12345" +:+ nl.

(** Files of a system with the processes of [procs]: pid, name, size,
    user ticks and kernel ticks. *)
Fixpoint files (procs : list (Z * string * string * string * string))
         (stat : string) (path : string) : option string :=
  match procs with
  | [] => if String.eqb path "/proc/stat" then Some stat else None
  | (pid, name, vm, utime, stime) :: procs' =>
      if String.eqb path (Proc.procPath pid "status") then
        Some (statusFile name vm)
      else if String.eqb path (Proc.procPath pid "stat") then
        Some (statFile (strconv.Itoa pid) name utime stime)
      else files procs' stat path
  end.

Fixpoint childrenOf (tree : list (Z * string)) (pid : Z) : string * bool :=
  match tree with
  | [] => (EmptyString, true)
  | (p, out) :: tree' => if p =? pid then (out, false) else childrenOf tree' pid
  end.

(** rkt (pid 10) with the children 11 and 12. *)
Definition os1 : Proc.OS :=
  Proc.mkOS
    (files [(10, "rkt", "2048", "50", "20");
            (11, "systemd", "512", "7", "3");
            (12, "worker", "4096", "10", "30")]
           (procStat "400" "600"))
    (childrenOf [(10, "11" +:+ nl +:+ "12" +:+ nl)]).

(** One second later: rkt has used 10 more user ticks and 30 more kernel
    ticks, out of 100 ticks of the whole system. *)
Definition os2 : Proc.OS :=
  Proc.mkOS
    (files [(10, "rkt", "2048", "60", "50");
            (11, "systemd", "512", "7", "3");
            (12, "worker", "4096", "10", "30")]
           (procStat "450" "650"))
    (childrenOf [(10, "11" +:+ nl +:+ "12" +:+ nl)]).

(** One second after [os1], pid 10 belongs to another process, whose
    counters start again below those seen before. *)
Definition os3 : Proc.OS :=
  Proc.mkOS
    (files [(10, "other", "1024", "40", "5")] (procStat "450" "650"))
    (childrenOf []).

(** As [os1], but the worker has exited after [pgrep] listed it. *)
Definition osGone : Proc.OS :=
  Proc.mkOS
    (files [(10, "rkt", "2048", "50", "20");
            (11, "systemd", "512", "7", "3")]
           (procStat "400" "600"))
    (childrenOf [(10, "11" +:+ nl +:+ "12" +:+ nl)]).

(** Pid 13 is listed as a child of both 11 and 12. *)
Definition osDiamond : Proc.OS :=
  Proc.mkOS
    (files [(10, "rkt", "2048", "50", "20");
            (11, "systemd", "512", "7", "3");
            (12, "worker", "4096", "10", "30");
            (13, "shared", "256", "1", "1")]
           (procStat "400" "600"))
    (childrenOf [(10, "11" +:+ nl +:+ "12" +:+ nl);
                 (11, "13" +:+ nl);
                 (12, "13" +:+ nl)]).

(** The statuses of a first tick on [os1], and those of rkt (pid 10) one
    tick later on [os2], on [os3] and on an unchanged [os1]. *)
Definition usageOf (os : Proc.OS) (last : list Proc.ProcessStatus)
  : list Proc.ProcessStatus :=
  match Proc.getUsage 5 os 10 last with
  | Ret usage => usage
  | _ => []
  end.

Definition statusOf (os : Proc.OS) (last : list Proc.ProcessStatus)
  : Proc.ProcessStatus :=
  match Proc.getProcStatus os 10 last with
  | Ret st => st
  | _ => Proc.zeroStatus
  end.

Definition tick1 : list Proc.ProcessStatus := Eval vm_compute in usageOf os1 [].
Definition first10 : Proc.ProcessStatus := Eval vm_compute in statusOf os1 [].
Definition next10 : Proc.ProcessStatus := Eval vm_compute in statusOf os2 tick1.
Definition reused10 : Proc.ProcessStatus := Eval vm_compute in statusOf os3 tick1.
Definition same10 : Proc.ProcessStatus := Eval vm_compute in statusOf os1 tick1.

(** The histories after the ticks [os1; os2] and [os1; os3]. *)
Definition historiesOf (ticks : list Proc.OS) : gmap Z (list Proc.ProcessStatus) :=
  match Proc.sampling 5 false ticks 10 [] ∅ with
  | Ret usages => usages
  | _ => ∅
  end.

(** The same tree as gopsutil shows it: 13 is a child of both 11 and 12. *)
Definition libDiamond : Gops.Library :=
  Gops.mkLibrary
    (fun p => (10 <=? p) && (p <=? 13))
    (fun p => if (10 <=? p) && (p <=? 13) then Some "proc" else None)
    (fun p => if (10 <=? p) && (p <=? 13) then Some PrimFloat.one else None)
    (fun p => if (10 <=? p) && (p <=? 13)
              then Some (Gops.mkMem (p * 1000) 4096 0) else None)
    (fun p => if p =? 10 then Gops.ChildrenOf [11; 12]
              else if (p =? 11) || (p =? 12) then Gops.ChildrenOf [13]
              else if p =? 13 then Gops.NoChildren
              else Gops.ChildrenError).

Definition gopsHistoriesOf (ticks : list Gops.Library)
  : gmap Z (list Gops.ProcessStatus) :=
  match Gops.sampling 10 ticks ∅ 10 ∅ with
  | Ret usages => usages
  | _ => ∅
  end.

End Sample.

(** ** Vocabulary of the statements *)

(** The fields that the lines of /proc/pid/status never touch. *)
Definition sameCounters (s s' : Proc.ProcessStatus) : Prop :=
  Proc.Pid s = Proc.Pid s' /\
  Proc.Utime s = Proc.Utime s' /\ Proc.LastUtime s = Proc.LastUtime s' /\
  Proc.Stime s = Proc.Stime s' /\ Proc.LastStime s = Proc.LastStime s' /\
  Proc.TimeTotal s = Proc.TimeTotal s' /\
  Proc.LastTimeTotal s = Proc.LastTimeTotal s'.

(** No pid of the map has an empty history. *)
Definition nonEmptyHistories {A : Type} (usages : gmap Z (list A)) : Prop :=
  forall (pid : Z) (h : list A), usages !! pid = Some h -> h <> [].

(** The percentage as the specification words it, over both the user and
    the kernel ticks. *)
Definition specCPUPercent (prev st : Proc.ProcessStatus) : Z :=
  100 * (Proc.Utime st + Proc.Stime st - Proc.Utime prev - Proc.Stime prev)
  / (Proc.TimeTotal st - Proc.TimeTotal prev).

(** [reaches os root p]: the walk from [root] comes to [p] along the child
    lists that [getChildrenPids] returns. *)
Inductive reaches (os : Proc.OS) : Z -> Z -> Prop :=
| reaches_here (p : Z) : reaches os p p
| reaches_child (p c q : Z) (children : list Z) :
    Proc.getChildrenPids os p = Ret children ->
    In c children -> reaches os c q -> reaches os p q.

(** [n] spaces. *)
Fixpoint blanks (n : nat) : string :=
  match n with
  | O => EmptyString
  | S n' => String " " (blanks n')
  end.

(** How often the byte [c] occurs in [s]. *)
Fixpoint countByte (c : ascii) (s : string) : nat :=
  match s with
  | EmptyString => O
  | String x s' => ((if Ascii.eqb x c then 1 else 0) + countByte c s')%nat
  end.

(** What [pgrep -P] prints for the children [pids]: one pid per line. *)
Fixpoint pgrepLines (pids : list Z) : string :=
  match pids with
  | [] => EmptyString
  | p :: pids' => strconv.Itoa p +:+ String "010" (pgrepLines pids')
  end.

(** The fields of a line of /proc/stat: every number after one space. *)
Fixpoint spaced (ns : list Z) : string :=
  match ns with
  | [] => EmptyString
  | n :: ns' => String " " (strconv.FormatUint n +:+ spaced ns')
  end.

Definition sumZ (l : list Z) : Z := fold_right Z.add 0 l.

Definition maxZ (l : list Z) : Z := fold_right Z.max 0 l.

(** Two statuses that agree on everything read in this tick: all fields
    but the three counters carried over from the previous tick. *)
Definition sameReading (s1 s2 : Proc.ProcessStatus) : Prop :=
  Proc.Pid s1 = Proc.Pid s2 /\ Proc.Name s1 = Proc.Name s2 /\
  Proc.FDSize s1 = Proc.FDSize s2 /\
  Proc.VmPeak s1 = Proc.VmPeak s2 /\ Proc.VmSize s1 = Proc.VmSize s2 /\
  Proc.VmHWM s1 = Proc.VmHWM s2 /\ Proc.VmRSS s1 = Proc.VmRSS s2 /\
  Proc.Threads s1 = Proc.Threads s2 /\
  Proc.Utime s1 = Proc.Utime s2 /\ Proc.Stime s1 = Proc.Stime s2 /\
  Proc.TimeTotal s1 = Proc.TimeTotal s2.

(** Two outcomes of the same kind, with results related by [R]. *)
Definition sameOutcome {A : Type} (R : A -> A -> Prop) (m1 m2 : outcome A) : Prop :=
  match m1, m2 with
  | Ret a, Ret b => R a b
  | Panicked p, Panicked q => p = q
  | OutOfFuel, OutOfFuel => True
  | _, _ => False
  end.

(** [withinDepth os d p]: below [p] the child lists go at most [d] levels
    deep, [p] itself counted. *)
Inductive withinDepth (os : Proc.OS) : nat -> Z -> Prop :=
| withinDepth_intro (d : nat) (p : Z) :
    (forall children c,
        Proc.getChildrenPids os p = Ret children -> In c children ->
        withinDepth os d c) ->
    withinDepth os (S d) p.

(** Further systems to run the model on. *)
Module Cases.

(** pgrep lists pid 10 among the children of its child 11. *)
Definition osCycle : Proc.OS :=
  Proc.mkOS
    (Sample.files [(10, "rkt", "2048", "50", "20");
                   (11, "systemd", "512", "7", "3")]
                  (Sample.procStat "400" "600"))
    (Sample.childrenOf [(10, "11" +:+ Sample.nl); (11, "10" +:+ Sample.nl)]).

(** What the walk of main.go returns on [Sample.libDiamond], started with
    an empty cache: the statuses and the cache afterwards. *)
Definition walkDiamond : list Gops.ProcessStatus :=
  match (Gops.getUsage 10 Sample.libDiamond ∅ 10).2 with
  | Some (inr usage) => usage
  | _ => []
  end.

Definition cacheDiamond : gset Z := (Gops.getUsage 10 Sample.libDiamond ∅ 10).1.

(** Every process is found and killed, but 12, which has finished by the
    time it is looked up. *)
Definition sigAll : Cleanup.Signals :=
  Cleanup.mkSignals
    (fun _ p => if p =? 12 then Cleanup.AlreadyFinished else Cleanup.Found)
    (fun _ _ => true).

(** rkt with the two children 11 and 12, as gopsutil shows it. *)
Definition libTree : Gops.Library :=
  Gops.mkLibrary
    (fun p => (10 <=? p) && (p <=? 12))
    (fun p => if (10 <=? p) && (p <=? 12) then Some "proc" else None)
    (fun p => if (10 <=? p) && (p <=? 12) then Some PrimFloat.one else None)
    (fun p => if (10 <=? p) && (p <=? 12)
              then Some (Gops.mkMem (p * 1000) 4096 0) else None)
    (fun p => if p =? 10 then Gops.ChildrenOf [11; 12]
              else if (p =? 11) || (p =? 12) then Gops.NoChildren
              else Gops.ChildrenError).

Definition walkTree : list Gops.ProcessStatus :=
  match (Gops.getUsage 10 libTree ∅ 10).2 with
  | Some (inr usage) => usage
  | _ => []
  end.

Definition cacheTree : gset Z := (Gops.getUsage 10 libTree ∅ 10).1.

End Cases.

(** [descends lib root p]: [p] is the root or comes below it along the
    child lists that gopsutil returns. *)
Inductive descends (lib : Gops.Library) : Z -> Z -> Prop :=
| descends_here (p : Z) : descends lib p p
| descends_child (p c q : Z) (children : list Z) :
    Gops.Children lib p = Gops.ChildrenOf children ->
    In c children -> descends lib c q -> descends lib p q.


(** The length of the history of a pid, 0 when it has none. *)
Definition historyLength {A : Type} (usages : gmap Z (list A)) (pid : Z) : nat :=
  length (default [] (usages !! pid)).

(** The system tick delta of a snapshot, as the percentages compute it. *)
Definition systemDelta (p : Proc.ProcessStatus) : Z :=
  sub64 (Proc.TimeTotal p) (Proc.LastTimeTotal p).

(** The user percentage of a snapshot whose system delta is not zero. *)
Definition userPercent (p : Proc.ProcessStatus) : Z :=
  mul64 100 (sub64 (Proc.Utime p) (Proc.LastUtime p)) / systemDelta p.

(** [treeSize lib p n]: the child lists below [p] form a finite tree of
    [n] processes, [p] counted; a process whose children cannot be listed
    counts as a leaf. *)
Inductive treeSize (lib : Gops.Library) : Z -> nat -> Prop :=
| treeSize_leaf (p : Z) :
    (forall children, Gops.Children lib p <> Gops.ChildrenOf children) ->
    treeSize lib p 1
| treeSize_node (p : Z) (children : list Z) (sizes : list nat) :
    Gops.Children lib p = Gops.ChildrenOf children ->
    Forall2 (treeSize lib) children sizes ->
    treeSize lib p (S (list_sum sizes)).

(** * Properties *)

(** ** uint64 arithmetic *)

Lemma wrap64_small (z : Z) : 0 <= z <= maxUint64 -> wrap64 z = z.
Proof. unfold wrap64, maxUint64. intros H. apply Z.mod_small. lia. Qed.

Lemma wrap64_range (z : Z) : 0 <= wrap64 z <= maxUint64.
Proof.
  unfold wrap64, maxUint64.
  pose proof (Z.mod_pos_bound z (2 ^ 64) ltac:(lia)). lia.
Qed.

Lemma sub64_zero_r (a : Z) : 0 <= a <= maxUint64 -> sub64 a 0 = a.
Proof. intros H. unfold sub64. rewrite Z.sub_0_r. by apply wrap64_small. Qed.

Lemma div64_nonzero (a b : Z) : b <> 0 -> div64 a b = Ret (a / b).
Proof. intros H. unfold div64. destruct (Z.eqb_spec b 0); [done | reflexivity]. Qed.

Lemma div64_zero (a : Z) : div64 a 0 = Panicked DivideByZero.
Proof. reflexivity. Qed.

Lemma append_cons (x : ascii) (a b : string) :
  String x a +:+ b = String x (a +:+ b).
Proof. reflexivity. Qed.

Lemma append_nil_l (b : string) : "" +:+ b = b.
Proof. reflexivity. Qed.

Lemma append_assoc (a b c : string) : (a +:+ b) +:+ c = a +:+ (b +:+ c).
Proof.
  induction a as [| x a IH]; [done |]. by rewrite !append_cons, IH.
Qed.

(** ** Decimal numbers: [ParseUint] reads back what [FormatUint] writes *)

Section Decimal.

Import strconv.

Lemma digit_char_ok (d : Z) :
  0 <= d < 10 -> is_digit (digit_char d) = true /\ digit_val (digit_char d) = d.
Proof.
  intros H.
  assert (Hd : d = 0 \/ d = 1 \/ d = 2 \/ d = 3 \/ d = 4 \/ d = 5 \/
               d = 6 \/ d = 7 \/ d = 8 \/ d = 9) by lia.
  repeat (destruct Hd as [-> | Hd]; [split; reflexivity |]).
  subst d. split; reflexivity.
Qed.

Lemma parseLoop_range (s : string) (n v : Z) :
  0 <= n <= maxUint64 -> parseLoop s n = (v, None) -> 0 <= v <= maxUint64.
Proof.
  revert n. induction s as [| c s IH]; intros n Hn; simpl.
  - intros [= <-]. exact Hn.
  - destruct (is_digit c); [| discriminate].
    destruct (cutoff <=? n); [discriminate |].
    destruct (_ || _); [discriminate |].
    apply IH. apply wrap64_range.
Qed.

Lemma ParseUint_range (s : string) (v : Z) :
  ParseUint s = (v, None) -> 0 <= v <= maxUint64.
Proof.
  destruct s as [| c s]; [discriminate |]. unfold ParseUint.
  apply parseLoop_range. unfold maxUint64. lia.
Qed.

Lemma parseLoop_app (s1 s2 : string) (n m : Z) :
  parseLoop s1 n = (m, None) -> parseLoop (s1 +:+ s2) n = parseLoop s2 m.
Proof.
  revert n. induction s1 as [| c s1 IH]; intros n; simpl.
  - by intros [= <-].
  - destruct (is_digit c); [| discriminate].
    destruct (cutoff <=? n); [discriminate |].
    destruct (_ || _); [discriminate |]. apply IH.
Qed.

Lemma parseLoop_digit (d n : Z) (s : string) :
  0 <= d < 10 -> 0 <= n -> n * 10 + d <= maxUint64 ->
  parseLoop (String (digit_char d) s) n = parseLoop s (n * 10 + d).
Proof.
  intros Hd Hn Hmax. destruct (digit_char_ok d Hd) as [Hdig Hval].
  cbn [parseLoop]. rewrite Hdig, Hval.
  assert (Hc : (cutoff <=? n) = false).
  { apply Z.leb_gt. pose proof (eq_refl : cutoff = 1844674407370955162).
    pose proof (eq_refl : maxUint64 = 18446744073709551615). lia. }
  rewrite Hc. unfold add64, mul64. cbv zeta.
  rewrite (wrap64_small (n * 10)) by lia.
  rewrite (wrap64_small (n * 10 + d)) by lia.
  replace (n * 10 + d <? n * 10) with false by (symmetry; apply Z.ltb_ge; lia).
  replace (maxUint64 <? n * 10 + d) with false by (symmetry; apply Z.ltb_ge; lia).
  reflexivity.
Qed.

Lemma formatBits_app (fuel : nat) (u : Z) (a : string) :
  formatBits fuel u a = formatBits fuel u "" +:+ a.
Proof.
  revert u a. induction fuel as [| fuel IH]; intros u a; simpl; [done |].
  destruct (u / 10 =? 0); [done |].
  rewrite (IH _ (String _ a)), (IH _ (String _ "")).
  by rewrite append_assoc.
Qed.

Lemma formatBits_parse (fuel : nat) (u : Z) :
  0 <= u < 10 ^ Z.of_nat fuel -> u <= maxUint64 ->
  parseLoop (formatBits fuel u "") 0 = (u, None).
Proof.
  revert u. induction fuel as [| fuel IH]; intros u Hu Hmax.
  - simpl in *. f_equal. lia.
  - cbn [formatBits].
    assert (Hmod : 0 <= u mod 10 < 10) by (apply Z.mod_pos_bound; lia).
    pose proof (Z.div_mod u 10 ltac:(lia)) as Hdm.
    destruct (Z.eqb_spec (u / 10) 0) as [Hz | Hnz].
    + rewrite parseLoop_digit by lia. simpl. f_equal. lia.
    + rewrite formatBits_app.
      rewrite Nat2Z.inj_succ, Z.pow_succ_r in Hu by lia.
      rewrite (parseLoop_app _ _ 0 (u / 10)).
      * rewrite parseLoop_digit by lia. simpl. f_equal. lia.
      * apply IH; [| lia]. split; [apply Z.div_pos; lia |].
        apply Z.div_lt_upper_bound; lia.
Qed.

Lemma formatBits_nonempty (fuel : nat) (u : Z) (c : ascii) (a : string) :
  exists c' a', formatBits fuel u (String c a) = String c' a'.
Proof.
  revert u c a. induction fuel as [| fuel IH]; intros u c a; simpl; [eauto |].
  destruct (u / 10 =? 0); [eauto |]. apply IH.
Qed.

Lemma formatBits_S_nonempty (fuel : nat) (u : Z) (a : string) :
  exists c' a', formatBits (S fuel) u a = String c' a'.
Proof.
  cbn [formatBits]. destruct (u / 10 =? 0); [eauto |]. apply formatBits_nonempty.
Qed.

Lemma FormatUint_nonempty (u : Z) : exists c a, FormatUint u = String c a.
Proof. apply (formatBits_S_nonempty 19). Qed.

Lemma ParseUint_FormatUint (u : Z) :
  0 <= u <= maxUint64 -> ParseUint (FormatUint u) = (u, None).
Proof.
  intros Hu. destruct (FormatUint_nonempty u) as (c & a & Heq).
  unfold ParseUint. rewrite Heq, <- Heq. unfold FormatUint.
  apply formatBits_parse; [| lia]. unfold maxUint64 in Hu. simpl. lia.
Qed.

Lemma formatBits_digits (fuel : nat) (u : Z) (a : string) :
  allDigits a = true -> allDigits (formatBits fuel u a) = true.
Proof.
  revert u a. induction fuel as [| fuel IH]; intros u a Ha; simpl; [done |].
  assert (Hmod : 0 <= u mod 10 < 10) by (apply Z.mod_pos_bound; lia).
  destruct (digit_char_ok _ Hmod) as [Hdig _].
  destruct (u / 10 =? 0); [| apply IH]; simpl; by rewrite Hdig.
Qed.

Lemma FormatUint_digits (u : Z) : allDigits (FormatUint u) = true.
Proof. by apply formatBits_digits. Qed.

End Decimal.

(** ** The size parser *)

Section Scanning.

Import strconv fmt.

Lemma digit_not_space (c : ascii) :
  is_digit c = true ->
  is_newline c = false /\ isSpace c = false /\ accepted c = true.
Proof.
  unfold is_newline, isSpace, accepted. intros H. rewrite H.
  split; [| split; [| done]].
  - destruct (Ascii.eqb_spec c "010"); [subst c; by vm_compute in H | done].
  - unfold is_digit in H. apply andb_true_iff in H as [H1 H2].
    apply Z.leb_le in H1, H2.
    apply orb_false_iff. split.
    + apply andb_false_iff. right. apply Z.leb_gt. lia.
    + apply Z.eqb_neq. lia.
Qed.

Lemma acceptAll_digits (s rest : string) :
  allDigits s = true -> stops rest = true ->
  acceptAll (s +:+ rest) = (s, rest).
Proof.
  intros Hs Hr. induction s as [| c s IH].
  - rewrite append_nil_l. destruct rest as [| c rest]; [done |].
    simpl in *. by destruct (accepted c).
  - simpl in Hs. apply andb_true_iff in Hs as [Hc Hs].
    destruct (digit_not_space c Hc) as (_ & _ & Hacc).
    rewrite append_cons. cbn [acceptAll]. by rewrite Hacc, IH.
Qed.

Lemma scanUint_FormatUint (n : Z) (rest : string) :
  0 <= n <= maxUint64 -> stops rest = true ->
  scanUint (FormatUint n +:+ rest) = inr (n, rest).
Proof.
  intros Hn Hr. pose proof (FormatUint_digits n) as Hd.
  pose proof (ParseUint_FormatUint n Hn) as Hp.
  destruct (FormatUint_nonempty n) as (c & a & Heq).
  rewrite Heq in *. simpl in Hd. apply andb_true_iff in Hd as [Hc Ha].
  destruct (digit_not_space c Hc) as (Hnl & Hsp & Hacc).
  unfold scanUint. rewrite append_cons. cbn [SkipSpace]. rewrite Hnl, Hsp.
  unfold scanNumber. rewrite Hacc, <- append_cons.
  rewrite acceptAll_digits; [| simpl; by rewrite Hc, Ha | done].
  by rewrite Hp.
Qed.

(** The count of [Sscanf] is 1 as soon as the number has been read. *)
Lemma Sscanf_count (str tail : string) (num : Z) :
  match scanUint str with
  | inr (v, _) => exists e, Sscanf str (String "%" (String "d" tail)) num = (1, e, v)
  | inl e => Sscanf str (String "%" (String "d" tail)) num = (0, Some e, num)
  end.
Proof.
  unfold Sscanf. destruct (scanUint str) as [e | [v rest]]; [done |].
  destruct (advance tail false rest); eauto.
Qed.

(** [parseLabeledSize] on every input: the number at its head, unscaled,
    or a panic when no number can be read there. *)
Lemma parseLabeledSize_scan (size : string) :
  parseLabeledSize size =
  match scanUint size with
  | inr (v, _) => Ret v
  | inl _ => Panicked (UnrecognizedSizeLabel size)
  end.
Proof.
  unfold parseLabeledSize.
  pose proof (Sscanf_count size " B" 0) as H1.
  pose proof (Sscanf_count size " kB" 0) as H2.
  pose proof (Sscanf_count size " mB" 0) as H3.
  pose proof (Sscanf_count size " gB" 0) as H4.
  destruct (scanUint size) as [e | [v rest]].
  - by rewrite H1, H2, H3, H4.
  - destruct H1 as [e1 ->]. reflexivity.
Qed.

Lemma parseLabeledSize_FormatUint (n : Z) (rest : string) :
  0 <= n <= maxUint64 -> stops rest = true ->
  parseLabeledSize (FormatUint n +:+ rest) = Ret n.
Proof.
  intros Hn Hr. by rewrite parseLabeledSize_scan, scanUint_FormatUint.
Qed.

(** Reading back a formatted size gives the number that was printed, not
    the size: the label is lost. *)
Lemma parseLabeledSize_formatSize (n : Z) :
  0 <= n <= maxUint64 ->
  parseLabeledSize (formatSize n) =
  Ret (if 1024 * 1024 * 1024 <? n then n / (1024 * 1024 * 1024)
       else if 1024 * 1024 <? n then n / (1024 * 1024)
       else if 1024 <? n then n / 1024
       else n).
Proof.
  intros Hn. unfold formatSize.
  pose proof (eq_refl : maxUint64 = 18446744073709551615) as Hmax.
  repeat case_match; apply parseLabeledSize_FormatUint; try done;
    split; try (apply Z.div_pos; lia);
    try (apply Z.div_le_upper_bound; lia); lia.
Qed.

End Scanning.

(** ** Sizes: formatting thresholds and reading back *)

(** C10: the thresholds of [formatSize] are strict.  A size that is exactly
    1024, 1024^2 or 1024^3 is printed in the next smaller unit ("1024 B",
    "1024 kB", "1024 mB"); a size is printed in kB, mB or gB only when it is
    strictly greater than 1024, 1024^2 or 1024^3. *)
Theorem formatSize_strict_thresholds :
  (formatSize 1024 = "1024 B" /\
   formatSize (1024 * 1024) = "1024 kB" /\
   formatSize (1024 * 1024 * 1024) = "1024 mB") /\
  forall size : Z,
    (size <= 1024 -> formatSize size = strconv.FormatUint size +:+ " B") /\
    (1024 < size <= 1024 * 1024 ->
     formatSize size = strconv.FormatUint (size / 1024) +:+ " kB") /\
    (1024 * 1024 < size <= 1024 * 1024 * 1024 ->
     formatSize size = strconv.FormatUint (size / (1024 * 1024)) +:+ " mB") /\
    (1024 * 1024 * 1024 < size ->
     formatSize size = strconv.FormatUint (size / (1024 * 1024 * 1024)) +:+ " gB").
Proof.
  split; [repeat split; vm_compute; reflexivity |].
  intros size. unfold formatSize.
  destruct (Z.ltb_spec (1024 * 1024 * 1024) size);
    destruct (Z.ltb_spec (1024 * 1024) size);
    destruct (Z.ltb_spec 1024 size);
    repeat split; intros; solve [reflexivity | lia].
Qed.

Lemma formatSize_strict_thresholds_witness :
  formatSize 1025 = "1 kB" /\ formatSize 1048577 = "1 mB" /\
  formatSize 1073741825 = "1 gB" /\ formatSize 7 = "7 B".
Proof.
  destruct formatSize_strict_thresholds as [_ H].
  split; [| split; [| split]].
  - destruct (H 1025) as (_ & Hk & _ & _). rewrite Hk by lia. reflexivity.
  - destruct (H 1048577) as (_ & _ & Hm & _). rewrite Hm by lia. reflexivity.
  - destruct (H 1073741825) as (_ & _ & _ & Hg). rewrite Hg by lia. reflexivity.
  - destruct (H 7) as (Hb & _ & _ & _). rewrite Hb by lia. reflexivity.
Defined.

(** C1, at the inputs where the code leaves the claim: [parseLabeledSize]
    returns the number in front of the label without scaling it for " kB",
    " mB" and " gB", and returns it as well, instead of panicking, for a
    label it does not know.  [Sscanf] reports the label that does not match
    through its error, which the code drops; the count is 1 all the same. *)
Theorem parseLabeledSize_ignores_label :
  parseLabeledSize "12 B" = Ret 12 /\
  parseLabeledSize "12 kB" = Ret 12 /\
  parseLabeledSize "12 mB" = Ret 12 /\
  parseLabeledSize "12 gB" = Ret 12 /\
  parseLabeledSize "12 xB" = Ret 12 /\
  fmt.Sscanf "12 kB" "%d B" 0 = (1, Some fmt.InputDoesNotMatchFormat, 12) /\
  fmt.Sscanf "12 kB" "%d kB" 0 = (1, None, 12).
Proof. repeat split; vm_compute; reflexivity. Qed.

(** C4, at an input where the code leaves the claim: 2048 bytes are printed
    as "2 kB", which is read back as 2, so that 2046 bytes are lost where the
    granularity of the unit allows 1023. *)
Theorem roundtrip_loses_the_unit :
  formatSize 2048 = "2 kB" /\
  parseLabeledSize (formatSize 2048) = Ret 2 /\
  1023 < 2048 - 2.
Proof. repeat split; vm_compute; reflexivity. Qed.

(** ** Reading one process *)

Section ReadingOneProcess.

Import Proc.

Lemma foldM_invariant {A B : Type} (R : B -> B -> Prop)
      (f : B -> A -> outcome B) :
  (forall b, R b b) ->
  (forall b1 b2 b3, R b1 b2 -> R b2 b3 -> R b1 b3) ->
  (forall b a b', f b a = Ret b' -> R b b') ->
  forall l b b', foldM f l b = Ret b' -> R b b'.
Proof.
  intros Hrefl Htrans Hstep. induction l as [| a l IH]; intros b b'; simpl.
  - intros [= <-]. apply Hrefl.
  - destruct (f b a) as [b1 | |] eqn:Hf; simpl; try discriminate.
    intros H. eapply Htrans; [by eapply Hstep | by apply IH].
Qed.

Lemma fold_left_invariant {A B : Type} (P : B -> Prop) (f : B -> A -> B) :
  (forall b a, P b -> P (f b a)) ->
  forall l b, P b -> P (fold_left f l b).
Proof. intros Hstep. induction l as [| a l IH]; simpl; auto. Qed.

Lemma sameCounters_refl (s : ProcessStatus) : sameCounters s s.
Proof. by repeat split. Qed.

Lemma sameCounters_trans (s1 s2 s3 : ProcessStatus) :
  sameCounters s1 s2 -> sameCounters s2 s3 -> sameCounters s1 s3.
Proof.
  unfold sameCounters. intros (?&?&?&?&?&?&?) (?&?&?&?&?&?&?).
  repeat split; congruence.
Qed.

Lemma statusLine_counters (s : ProcessStatus) (line : string) (s' : ProcessStatus) :
  statusLine s line = Ret s' -> sameCounters s s'.
Proof.
  unfold statusLine, bind. intros H.
  repeat case_match; simplify_eq; by repeat split.
Qed.

Lemma statLine_range (total : Z) (line : string) :
  0 <= total <= maxUint64 -> 0 <= statLine total line <= maxUint64.
Proof.
  intros H. unfold statLine. case_match; [done |].
  apply fold_left_invariant; [| done]. intros b a Hb.
  apply fold_left_invariant; [| done]. intros b' a' Hb'.
  repeat case_match; first [done | apply wrap64_range].
Qed.

Lemma parseUintOrPanic_range (text : string) (n : Z) :
  parseUintOrPanic text = Ret n -> 0 <= n <= maxUint64.
Proof.
  unfold parseUintOrPanic. destruct (strconv.ParseUint text) as [v [e |]] eqn:H;
    [discriminate |]. intros [= <-]. by eapply ParseUint_range.
Qed.

(** What a status that [getProcStatus] returns holds: the pid asked for, the
    counters of the entry that [lastStatusOf] picks as the previous ones, and
    counters of its own that are uint64 values, the total not zero. *)
Lemma getProcStatus_inv (os : OS) (pid : Z) (last : list ProcessStatus)
      (st : ProcessStatus) :
  getProcStatus os pid last = Ret st ->
  Pid st = pid /\
  LastUtime st = Utime (lastStatusOf pid last) /\
  LastStime st = Stime (lastStatusOf pid last) /\
  LastTimeTotal st = TimeTotal (lastStatusOf pid last) /\
  0 <= Utime st <= maxUint64 /\
  0 <= Stime st <= maxUint64 /\
  0 < TimeTotal st <= maxUint64.
Proof.
  unfold getProcStatus. set (prev := lastStatusOf pid last).
  destruct (ReadFile os (procPath pid "status")) as [blob |]; [| discriminate].
  destruct (foldM statusLine _ _) as [s1 | |] eqn:Hfold; simpl; try discriminate.
  apply (foldM_invariant sameCounters statusLine sameCounters_refl
           sameCounters_trans statusLine_counters) in Hfold.
  destruct Hfold as (Hpid & _ & Hlu & _ & Hls & Htt & Hlt). simpl in *.
  destruct (ReadFile os "/proc/stat") as [blob2 |]; [| discriminate].
  set (total := fold_left statLine _ _).
  assert (Htotal : 0 <= total <= maxUint64).
  { apply fold_left_invariant; [intros; by apply statLine_range |].
    rewrite <- Htt. pose proof (eq_refl : maxUint64 = 18446744073709551615). lia. }
  destruct (Z.eqb_spec total 0) as [| Hnz]; [discriminate |].
  destruct (ReadFile os (procPath pid "stat")) as [blob3 |]; [| discriminate].
  destruct (_ <? 15); [discriminate |].
  destruct (parseUintOrPanic (nth 13 _ _)) as [u | |] eqn:Hu; simpl; try discriminate.
  destruct (parseUintOrPanic (nth 14 _ _)) as [k | |] eqn:Hk; simpl; try discriminate.
  intros [= <-]. simpl.
  apply parseUintOrPanic_range in Hu, Hk.
  repeat split; try congruence; lia.
Qed.

Lemma lastStatusOf_app (pid : Z) (l : list ProcessStatus) (s : ProcessStatus) :
  lastStatusOf pid (l ++ [s]) = if Pid s =? pid then s else lastStatusOf pid l.
Proof. unfold lastStatusOf. by rewrite fold_left_app. Qed.

Lemma lastStatusOf_absent (pid : Z) (l : list ProcessStatus) :
  (forall s, In s l -> Pid s <> pid) -> lastStatusOf pid l = zeroStatus.
Proof.
  induction l as [| s l IH] using rev_ind; intros H; [done |].
  rewrite lastStatusOf_app.
  destruct (Z.eqb_spec (Pid s) pid) as [Heq | _].
  - exfalso. apply (H s); [apply in_or_app; right; by left | done].
  - apply IH. intros s' Hs'. apply H. apply in_or_app. by left.
Qed.

Lemma lastStatusOf_present (pid : Z) (l : list ProcessStatus) :
  (exists s, In s l /\ Pid s = pid) ->
  In (lastStatusOf pid l) l /\ Pid (lastStatusOf pid l) = pid.
Proof.
  induction l as [| s l IH] using rev_ind; intros (s0 & Hin & Hpid).
  - destruct Hin.
  - rewrite lastStatusOf_app.
    destruct (Z.eqb_spec (Pid s) pid) as [Heq | Hne].
    + split; [apply in_or_app; right; by left | done].
    + apply in_app_or in Hin as [Hin | [-> | []]]; [| done].
      destruct IH as [Hl Hp]; [by exists s0 |].
      split; [apply in_or_app; by left | done].
Qed.

End ReadingOneProcess.

(** ** The CPU percentage *)

Section Percentage.

Import Proc.

Lemma GetCPUUsage_zero_delta (ps : ProcessStatus) :
  TimeTotal ps = LastTimeTotal ps ->
  GetCPUUsageUser ps = Panicked DivideByZero /\
  GetCPUUsageKernel ps = Panicked DivideByZero.
Proof.
  intros H. unfold GetCPUUsageUser, GetCPUUsageKernel, sub64.
  rewrite H, Z.sub_diag. by split.
Qed.

(** C2, at an input where the code leaves the claim: when /proc/stat shows
    the same total on two consecutive ticks, the snapshot of the second tick
    has a system tick delta of zero, both percentages divide by it, and the
    run ends in the panic of the division instead of reporting 0. *)
Theorem zero_system_delta_divides_by_zero :
  getProcStatus Sample.os1 10 Sample.tick1 = Ret Sample.same10 /\
  sub64 (TimeTotal Sample.same10) (LastTimeTotal Sample.same10) = 0 /\
  GetCPUUsageUser Sample.same10 = Panicked DivideByZero /\
  GetCPUUsageKernel Sample.same10 = Panicked DivideByZero /\
  runRktMonitor 5 false [Sample.os1; Sample.os1] 10 = Panicked DivideByZero /\
  runRktMonitor 5 true [Sample.os1; Sample.os1] 10 = Panicked DivideByZero.
Proof. repeat split; vm_compute; reflexivity. Qed.

(** C3 as stated fails: with 10 more user ticks and 30 more kernel ticks out
    of 100 system ticks, the percentage of the tick is 10, not the 40 that
    the sum of both deltas gives. *)
Lemma kernel_ticks_not_counted :
  In Sample.first10 Sample.tick1 /\
  getProcStatus Sample.os2 10 Sample.tick1 = Ret Sample.next10 /\
  specCPUPercent Sample.first10 Sample.next10 = 40 /\
  GetCPUUsageUser Sample.next10 = Ret 10 /\
  GetCPUUsageUser Sample.next10 <> Ret (specCPUPercent Sample.first10 Sample.next10).
Proof.
  repeat split; try (vm_compute; reflexivity).
  - left. reflexivity.
  - vm_compute. discriminate.
Qed.

(** C3, amended: for a snapshot with a preceding snapshot of the same pid
    (the one [lastStatusOf] finds in the statuses of the previous tick), user
    ticks that did not decrease and a system total that grew, the percentage
    of the tick is 100 times the user-mode tick delta divided by the
    system-wide tick delta, the division truncating.  The kernel-mode ticks
    are no part of it. *)
Theorem cpu_percent_is_user_share (os : OS) (pid : Z)
        (last : list ProcessStatus) (st : ProcessStatus) :
  let prev := lastStatusOf pid last in
  (exists s, In s last /\ Pid s = pid) ->
  getProcStatus os pid last = Ret st ->
  0 <= Utime prev <= Utime st ->
  100 * (Utime st - Utime prev) <= maxUint64 ->
  0 <= TimeTotal prev < TimeTotal st ->
  (In prev last /\ Pid prev = pid) /\
  GetCPUUsageUser st =
  Ret (100 * (Utime st - Utime prev) / (TimeTotal st - TimeTotal prev)).
Proof.
  intros prev Hex Hget Hu Hmul Ht.
  split; [by apply lastStatusOf_present |].
  apply getProcStatus_inv in Hget as (_ & Hlu & _ & Hlt & _ & _ & Htt).
  fold prev in Hlu, Hlt. unfold GetCPUUsageUser. rewrite Hlu, Hlt.
  unfold mul64, sub64.
  rewrite (wrap64_small (Utime st - Utime prev)) by lia.
  rewrite (wrap64_small (100 * _)) by lia.
  rewrite (wrap64_small (TimeTotal st - TimeTotal prev)) by lia.
  apply div64_nonzero. lia.
Qed.

Lemma cpu_percent_is_user_share_witness :
  GetCPUUsageUser Sample.next10 = Ret (100 * (60 - 50) / (1100 - 1000)).
Proof.
  apply (cpu_percent_is_user_share Sample.os2 10 Sample.tick1 Sample.next10).
  - exists Sample.first10. split; [left; reflexivity | reflexivity].
  - vm_compute. reflexivity.
  - simpl. lia.
  - vm_compute. discriminate.
  - simpl. lia.
Defined.

(** C6 as stated fails: the first snapshot of rkt on [os1], with 50 user
    ticks out of a system total of 1000, has the percentage 5, not 0. *)
Lemma first_tick_not_zero :
  getProcStatus Sample.os1 10 [] = Ret Sample.first10 /\
  GetCPUUsageUser Sample.first10 = Ret 5 /\
  GetCPUUsageUser Sample.first10 <> Ret 0.
Proof.
  repeat split; try (vm_compute; reflexivity). vm_compute. discriminate.
Qed.

(** C6, amended: for a pid with no entry in the statuses of the previous
    tick, the previous counters of the snapshot are the zero values, and the
    percentage of that first tick is computed from the delta against them:
    100 times the user ticks of the process since its start (the product
    wrapping at 2^64) divided by the system-wide total since boot. *)
Theorem first_tick_cpu_since_boot (os : OS) (pid : Z)
        (last : list ProcessStatus) (st : ProcessStatus) :
  (forall s, In s last -> Pid s <> pid) ->
  getProcStatus os pid last = Ret st ->
  LastUtime st = 0 /\ LastTimeTotal st = 0 /\
  GetCPUUsageUser st = Ret (mul64 100 (Utime st) / TimeTotal st).
Proof.
  intros Habs Hget.
  apply getProcStatus_inv in Hget as (_ & Hlu & _ & Hlt & Hu & _ & Htt).
  rewrite (lastStatusOf_absent _ _ Habs) in Hlu, Hlt. simpl in Hlu, Hlt.
  repeat split; try done.
  unfold GetCPUUsageUser. rewrite Hlu, Hlt.
  rewrite !sub64_zero_r by lia. apply div64_nonzero. lia.
Qed.

Lemma first_tick_cpu_since_boot_witness :
  LastUtime Sample.first10 = 0 /\ LastTimeTotal Sample.first10 = 0 /\
  GetCPUUsageUser Sample.first10 = Ret (mul64 100 50 / 1000).
Proof.
  apply (first_tick_cpu_since_boot Sample.os1 10 [] Sample.first10).
  - intros s [].
  - vm_compute. reflexivity.
Defined.

End Percentage.

(** ** The recursive walk and the histories *)

Section Walk.

Import Proc.

Lemma returns_bind {A B : Type} (m : outcome A) (k : A -> outcome B) :
  returns m = false -> returns (bind m k) = false.
Proof. by destruct m. Qed.

Lemma getUsage_unfold (fuel : nat) (os : OS) (pid : Z)
      (last usage : list ProcessStatus) :
  getUsage (S fuel) os pid last = Ret usage ->
  exists status children childrenStatuses,
    getProcStatus os pid last = Ret status /\
    getChildrenPids os pid = Ret children /\
    foldM (fun childrenStatuses child =>
             do sub <- getUsage fuel os child last;
             Ret (childrenStatuses ++ sub)%list)
          children [] = Ret childrenStatuses /\
    usage = status :: childrenStatuses.
Proof.
  cbn [getUsage]. unfold bind at 1.
  destruct (getProcStatus os pid last) as [status | |]; try discriminate.
  unfold bind at 1.
  destruct (getChildrenPids os pid) as [children | |]; try discriminate.
  unfold bind at 1.
  destruct (foldM _ children []) as [childrenStatuses | |] eqn:Hfold;
    try discriminate.
  intros [= <-]. by exists status, children, childrenStatuses.
Qed.

(** The loop over the children keeps what it has and adds the whole walk of
    every child. *)
Lemma children_loop_inv (fuel : nat) (os : OS) (last : list ProcessStatus)
      (children : list Z) (acc res : list ProcessStatus) :
  foldM (fun childrenStatuses child =>
           do sub <- getUsage fuel os child last;
           Ret (childrenStatuses ++ sub)%list)
        children acc = Ret res ->
  incl acc res /\
  forall c, In c children ->
    exists sub, getUsage fuel os c last = Ret sub /\ incl sub res.
Proof.
  revert acc. induction children as [| c children IH]; intros acc; simpl.
  - intros [= <-]. split; [apply incl_refl | intros c []].
  - destruct (getUsage fuel os c last) as [sub | |] eqn:Hc; simpl;
      try discriminate.
    intros H. apply IH in H as [Hacc Hall]. split.
    + intros x Hx. apply Hacc. apply in_or_app. by left.
    + intros c' [<- | Hin]; [| by apply Hall].
      exists sub. split; [done |].
      intros x Hx. apply Hacc. apply in_or_app. by right.
Qed.

(** A walk that returns has read every pid it reaches, and holds the status
    read for it. *)
Lemma getUsage_complete (os : OS) (last : list ProcessStatus) (fuel : nat) :
  forall root usage p,
    getUsage fuel os root last = Ret usage -> reaches os root p ->
    exists st, In st usage /\ getProcStatus os p last = Ret st.
Proof.
  induction fuel as [| fuel IH]; intros root usage p Hrun Hreach;
    [discriminate |].
  apply getUsage_unfold in Hrun
    as (status & children & rest & Hst & Hch & Hloop & ->).
  inversion Hreach as [| ? c ? children' Hch' Hin Hreach']; subst.
  - exists status. split; [by left | done].
  - rewrite Hch in Hch'. injection Hch' as <-.
    apply children_loop_inv in Hloop as [_ Hall].
    destruct (Hall c Hin) as (sub & Hsub & Hincl).
    destruct (IH c sub p Hsub Hreach') as (st & Hst' & Hread).
    exists st. split; [right; by apply Hincl | done].
Qed.

(** Every status of a walk that returns was read by [getProcStatus] for a
    pid that the walk reaches. *)
Lemma getUsage_sound (os : OS) (last : list ProcessStatus) (fuel : nat) :
  forall root usage st,
    getUsage fuel os root last = Ret usage -> In st usage ->
    reaches os root (Pid st) /\ getProcStatus os (Pid st) last = Ret st.
Proof.
  induction fuel as [| fuel IH]; intros root usage st Hrun Hin;
    [discriminate |].
  apply getUsage_unfold in Hrun
    as (status & children & rest & Hst & Hch & Hloop & ->).
  destruct Hin as [<- | Hin].
  - destruct (getProcStatus_inv _ _ _ _ Hst) as [Hpid _]. rewrite Hpid.
    split; [constructor | done].
  - cut (forall acc res,
            (forall x, In x acc ->
               reaches os root (Pid x) /\ getProcStatus os (Pid x) last = Ret x) ->
            forall cs, incl cs children ->
            foldM (fun childrenStatuses child =>
                     do sub <- getUsage fuel os child last;
                     Ret (childrenStatuses ++ sub)%list) cs acc = Ret res ->
            forall x, In x res ->
               reaches os root (Pid x) /\ getProcStatus os (Pid x) last = Ret x).
    { intros Hcut. apply (Hcut [] rest (fun x (H : In x []) => match H with end)
                               children (incl_refl _) Hloop st Hin). }
    intros acc res Hacc cs. revert acc Hacc.
    induction cs as [| c cs IHcs]; intros acc Hacc Hcs; simpl.
    + intros [= <-]. exact Hacc.
    + destruct (getUsage fuel os c last) as [sub | |] eqn:Hc; simpl;
        try discriminate.
      apply IHcs; [| intros y Hy; apply Hcs; by right].
      intros x Hx. apply in_app_or in Hx as [Hx | Hx]; [by apply Hacc |].
      destruct (IH c sub x Hc Hx) as [Hr Hg]. split; [| done].
      eapply reaches_child; [exact Hch | apply Hcs; by left | exact Hr].
Qed.

Lemma getProcStatus_unreadable (os : OS) (pid : Z) (last : list ProcessStatus) :
  ReadFile os (procPath pid "status") = None ->
  getProcStatus os pid last = Panicked (ReadFailed (procPath pid "status")).
Proof. intros H. unfold getProcStatus. by rewrite H. Qed.

Lemma foldM_bounded {A B : Type} (f : B -> A -> outcome B) :
  (forall b a, f b a <> OutOfFuel) ->
  forall l b, foldM f l b <> OutOfFuel.
Proof.
  intros Hf. induction l as [| a l IH]; intros b; simpl; [done |].
  specialize (Hf b a). destruct (f b a); simpl; [apply IH | done | done].
Qed.

Lemma statusLine_bounded (s : ProcessStatus) (line : string) :
  statusLine s line <> OutOfFuel.
Proof.
  unfold statusLine, bind, parseUintOrPanic, parseLabeledSize.
  repeat case_match; simplify_eq; done.
Qed.

(** A process whose status file or stat file cannot be read makes
    [getProcStatus] panic, whatever else it reads before. *)
Lemma getProcStatus_gone (os : OS) (pid : Z) (last : list ProcessStatus) :
  ReadFile os (procPath pid "status") = None \/
  ReadFile os (procPath pid "stat") = None ->
  exists e, getProcStatus os pid last = Panicked e.
Proof.
  intros [H | H]; [rewrite getProcStatus_unreadable by done; eauto |].
  unfold getProcStatus.
  destruct (ReadFile os (procPath pid "status")) as [blob |]; [| eauto].
  pose proof (foldM_bounded statusLine statusLine_bounded) as Hb.
  match goal with |- context [foldM statusLine ?l ?b] =>
    specialize (Hb l b); destruct (foldM statusLine l b) as [s1 | e |] end;
    simpl; [| eauto | done].
  destruct (ReadFile os "/proc/stat"); [| eauto].
  destruct (_ =? 0); [eauto |]. rewrite H. eauto.
Qed.

(** C5 as stated fails: on [osGone] the worker (pid 12) is listed by pgrep
    and has exited before it is read; the tick panics, no status is returned
    for rkt and systemd either, and a run that meets this on its second tick
    ends in the panic, without a report of the first tick. *)
Lemma exited_child_aborts_the_run :
  getChildrenPids Sample.osGone 10 = Ret [11; 12] /\
  ReadFile Sample.osGone (procPath 12 "status") = None /\
  getUsage 5 Sample.osGone 10 Sample.tick1
  = Panicked (ReadFailed "/proc/12/status") /\
  runRktMonitor 5 false [Sample.os1; Sample.osGone] 10
  = Panicked (ReadFailed "/proc/12/status").
Proof. repeat split; vm_compute; reflexivity. Qed.

Lemma sampling_stops (os : OS) (root : Z) :
  (forall fuel last, returns (getUsage fuel os root last) = false) ->
  forall fuel verbose before after usage usages,
    returns (sampling fuel verbose (before ++ os :: after) root usage usages)
    = false.
Proof.
  intros Hos fuel verbose before after.
  induction before as [| os0 before IH]; intros usage usages; simpl.
  - apply returns_bind, Hos.
  - destruct (getUsage fuel os0 root usage) as [usage0 | |]; simpl; try done.
    destruct (if verbose then printUsage usage0 else Ret tt); simpl; try done.
Qed.

(** C5, amended: when the status file or the stat file of a pid that the
    walk reaches cannot be read, [getProcStatus] panics for that pid, the
    walk of that tick returns no statuses at all (for no amount of fuel),
    and a run that holds such a tick returns no report: the failure is fatal
    to the tick and to the run, and the history gathered before it is not
    reported. *)
Theorem read_failure_is_fatal (os : OS) (root p : Z) :
  reaches os root p ->
  ReadFile os (procPath p "status") = None \/
  ReadFile os (procPath p "stat") = None ->
  (forall last, exists e, getProcStatus os p last = Panicked e) /\
  (forall fuel last, returns (getUsage fuel os root last) = false) /\
  (forall fuel verbose before after,
     returns (runRktMonitor fuel verbose (before ++ os :: after) root) = false).
Proof.
  intros Hreach Hread.
  assert (Hwalk : forall fuel last, returns (getUsage fuel os root last) = false).
  { intros fuel last.
    destruct (getUsage fuel os root last) as [usage | |] eqn:Hrun; try done.
    destruct (getUsage_complete _ _ _ _ _ _ Hrun Hreach) as (st & _ & Hst).
    destruct (getProcStatus_gone os p last Hread) as [e He]. congruence. }
  split; [intros last; by apply getProcStatus_gone |].
  split; [exact Hwalk |].
  intros fuel verbose before after. unfold runRktMonitor.
  apply returns_bind. by apply sampling_stops.
Qed.

Lemma read_failure_is_fatal_witness :
  (forall last, exists e, getProcStatus Sample.osGone 12 last = Panicked e) /\
  (forall fuel last, returns (getUsage fuel Sample.osGone 10 last) = false) /\
  (forall fuel verbose before after,
     returns (runRktMonitor fuel verbose (before ++ Sample.osGone :: after) 10)
     = false).
Proof.
  apply (read_failure_is_fatal Sample.osGone 10 12).
  - apply (reaches_child _ 10 12 12 [11; 12]).
    + vm_compute. reflexivity.
    + right. left. reflexivity.
    + apply reaches_here.
  - left. vm_compute. reflexivity.
Defined.

(** The history of a pid after a tick: what it was, then the statuses of
    the tick for that pid, in their order. *)
Lemma record_lookup (usage : list ProcessStatus) :
  forall (usages : gmap Z (list ProcessStatus)) (pid : Z),
    record usages usage !! pid =
    match filter (fun s => Pid s = pid) usage with
    | [] => usages !! pid
    | new => Some (default [] (usages !! pid) ++ new)%list
    end.
Proof.
  unfold record. induction usage as [| s usage IH]; intros usages pid; [done |].
  cbn [fold_left]. rewrite IH.
  destruct (decide (Pid s = pid)) as [Heq | Hne].
  - rewrite filter_cons_True by done. subst pid. rewrite lookup_insert_eq.
    cbn [default]. destruct (filter _ usage) as [| s' new].
    + done.
    + unfold id. by rewrite <- app_assoc.
  - rewrite filter_cons_False by done. by rewrite lookup_insert_ne.
Qed.

Lemma record_keeps_history (usages : gmap Z (list ProcessStatus))
      (usage h : list ProcessStatus) (pid : Z) :
  usages !! pid = Some h ->
  record usages usage !! pid = Some (h ++ filter (fun s => Pid s = pid) usage)%list.
Proof.
  intros H. rewrite record_lookup, H. cbn [default].
  destruct (filter _ usage); [by rewrite app_nil_r | done].
Qed.

(** C7 as stated fails: after the ticks [os1; os3], in which the user ticks
    of pid 10 fall from 50 to 40, the history of pid 10 holds both
    snapshots, and the second one has a percentage that is not 0. *)
Lemma pid_reuse_not_detected :
  Utime Sample.reused10 < Utime Sample.first10 /\
  Sample.historiesOf [Sample.os1; Sample.os3] !! 10
  = Some [Sample.first10; Sample.reused10] /\
  GetCPUUsageUser Sample.reused10 = Ret 184467440737095506 /\
  GetCPUUsageUser Sample.reused10 <> Ret 0.
Proof.
  repeat split; try (vm_compute; reflexivity). vm_compute. discriminate.
Qed.

(** C7, amended: for a pid whose user tick counter is lower than in the
    preceding snapshot, the sampler does nothing special: the history that
    the pid has is kept and the statuses of the tick for that pid are
    appended to it, among them the new snapshot, whose previous counters are
    those of the preceding snapshot (they are not reset to zero). *)
Theorem decreasing_counters_keep_history (fuel : nat) (os : OS) (root pid : Z)
        (last usage h : list ProcessStatus)
        (usages : gmap Z (list ProcessStatus)) (st : ProcessStatus) :
  let prev := lastStatusOf pid last in
  getUsage fuel os root last = Ret usage ->
  In st usage -> Pid st = pid ->
  Utime st < Utime prev ->
  usages !! pid = Some h ->
  record usages usage !! pid
  = Some (h ++ filter (fun s => Pid s = pid) usage)%list /\
  In st (filter (fun s => Pid s = pid) usage) /\
  LastUtime st = Utime prev /\
  LastStime st = Stime prev /\
  LastTimeTotal st = TimeTotal prev.
Proof.
  intros prev Hrun Hin Hpid Hdecr Hh.
  split; [by apply record_keeps_history |].
  split; [apply list_elem_of_In, list_elem_of_filter; split;
          [done | by apply list_elem_of_In] |].
  destruct (getUsage_sound _ _ _ _ _ _ Hrun Hin) as [_ Hget].
  rewrite Hpid in Hget.
  by apply getProcStatus_inv in Hget as (_ & ? & ? & ? & _).
Qed.

Lemma decreasing_counters_keep_history_witness :
  record (record ∅ Sample.tick1) [Sample.reused10] !! 10
  = Some ([Sample.first10]
          ++ filter (fun s => Pid s = 10) [Sample.reused10])%list /\
  In Sample.reused10 (filter (fun s => Pid s = 10) [Sample.reused10]) /\
  LastUtime Sample.reused10 = Utime (lastStatusOf 10 Sample.tick1) /\
  LastStime Sample.reused10 = Stime (lastStatusOf 10 Sample.tick1) /\
  LastTimeTotal Sample.reused10 = TimeTotal (lastStatusOf 10 Sample.tick1).
Proof.
  apply (decreasing_counters_keep_history 5 Sample.os3 10 10 Sample.tick1).
  - vm_compute. reflexivity.
  - left. reflexivity.
  - reflexivity.
  - vm_compute. reflexivity.
  - vm_compute. reflexivity.
Defined.

End Walk.

(** ** Histories are created by appending *)

Lemma nonEmptyHistories_empty {A : Type} : nonEmptyHistories (∅ : gmap Z (list A)).
Proof. intros pid h H. by rewrite lookup_empty in H. Qed.

Lemma nonEmptyHistories_append {A : Type} (usages : gmap Z (list A))
      (pid : Z) (a : A) :
  nonEmptyHistories usages ->
  nonEmptyHistories (<[pid := (default [] (usages !! pid) ++ [a])%list]> usages).
Proof.
  intros Hinv pid' h. rewrite lookup_insert. case_decide.
  - intros [= <-]. intros Hnil. by apply app_eq_nil in Hnil as [_ ?].
  - apply Hinv.
Qed.

Lemma Proc_record_nonempty (usages : gmap Z (list Proc.ProcessStatus))
      (usage : list Proc.ProcessStatus) :
  nonEmptyHistories usages -> nonEmptyHistories (Proc.record usages usage).
Proof.
  unfold Proc.record. apply fold_left_invariant.
  intros b a. apply nonEmptyHistories_append.
Qed.

Lemma Gops_record_nonempty (usages : gmap Z (list Gops.ProcessStatus))
      (usage : list Gops.ProcessStatus) :
  nonEmptyHistories usages -> nonEmptyHistories (Gops.record usages usage).
Proof.
  unfold Gops.record. apply fold_left_invariant.
  intros b a. apply nonEmptyHistories_append.
Qed.

Lemma Proc_sampling_nonempty (fuel : nat) (verbose : bool) (root : Z)
      (ticks : list Proc.OS) :
  forall usage usages usages',
    nonEmptyHistories usages ->
    Proc.sampling fuel verbose ticks root usage usages = Ret usages' ->
    nonEmptyHistories usages'.
Proof.
  induction ticks as [| os ticks IH]; intros usage usages usages' Hinv; simpl.
  - by intros [= <-].
  - destruct (Proc.getUsage fuel os root usage) as [usage' | |]; simpl;
      try discriminate.
    destruct (if verbose then Proc.printUsage usage' else Ret tt); simpl;
      try discriminate.
    apply IH. by apply Proc_record_nonempty.
Qed.

Lemma Gops_sampling_nonempty (fuel : nat) (root : Z) (ticks : list Gops.Library) :
  forall pidMap usages usages',
    nonEmptyHistories usages ->
    Gops.sampling fuel ticks pidMap root usages = Ret usages' ->
    nonEmptyHistories usages'.
Proof.
  induction ticks as [| lib ticks IH]; intros pidMap usages usages' Hinv; simpl.
  - by intros [= <-].
  - destruct (Gops.getUsage fuel lib pidMap root) as [pidMap' [[err | usage] |]];
      try discriminate.
    destruct (Gops.NewProcess lib root).
    + apply IH. by apply Gops_record_nonempty.
    + intros [= <-]. by apply Gops_record_nonempty.
Qed.

Lemma div64_by_length {A : Type} (h : list A) (x : Z) :
  h <> [] ->
  0 < Z.of_nat (length h) /\
  div64 x (Z.of_nat (length h)) = Ret (x / Z.of_nat (length h)).
Proof.
  intros Hne. destruct h as [| a h]; [done |].
  split; [simpl; lia |]. apply div64_nonzero. simpl. lia.
Qed.

(** C9: every history in the map that the sampling loop hands to the report
    is non-empty, in both variants: its length is positive, and a division
    of a sum by that length does not panic. *)
Theorem histories_are_never_empty :
  (forall fuel verbose ticks root usages pid h,
     Proc.sampling fuel verbose ticks root [] ∅ = Ret usages ->
     usages !! pid = Some h ->
     h <> [] /\ 0 < Z.of_nat (length h) /\
     forall sum, div64 sum (Z.of_nat (length h)) = Ret (sum / Z.of_nat (length h)))
  /\
  (forall fuel ticks root usages pid h,
     Gops.sampling fuel ticks ∅ root ∅ = Ret usages ->
     usages !! pid = Some h ->
     h <> [] /\ 0 < Z.of_nat (length h) /\
     forall sum, div64 sum (Z.of_nat (length h)) = Ret (sum / Z.of_nat (length h))).
Proof.
  split.
  - intros fuel verbose ticks root usages pid h Hrun Hh.
    apply Proc_sampling_nonempty in Hrun; [| apply nonEmptyHistories_empty].
    specialize (Hrun pid h Hh).
    split; [done |]. split; [| intros sum]; by apply div64_by_length.
  - intros fuel ticks root usages pid h Hrun Hh.
    apply Gops_sampling_nonempty in Hrun; [| apply nonEmptyHistories_empty].
    specialize (Hrun pid h Hh).
    split; [done |]. split; [| intros sum]; by apply div64_by_length.
Qed.

Lemma histories_are_never_empty_witness :
  ([Sample.first10; Sample.next10] <> [] /\
   0 < Z.of_nat (length [Sample.first10; Sample.next10]) /\
   forall sum, div64 sum (Z.of_nat (length [Sample.first10; Sample.next10]))
               = Ret (sum / Z.of_nat (length [Sample.first10; Sample.next10])))
  /\
  (exists h, Sample.gopsHistoriesOf [Sample.libDiamond] !! 13 = Some h /\
             h <> [] /\ 0 < Z.of_nat (length h)).
Proof.
  split.
  - apply (proj1 histories_are_never_empty 5%nat false [Sample.os1; Sample.os2] 10
                 (Sample.historiesOf [Sample.os1; Sample.os2]) 10).
    + vm_compute. reflexivity.
    + vm_compute. reflexivity.
  - eexists. split; [vm_compute; reflexivity |].
    destruct (proj2 histories_are_never_empty 10%nat [Sample.libDiamond] 10
                (Sample.gopsHistoriesOf [Sample.libDiamond]) 13 _
                ltac:(vm_compute; reflexivity) ltac:(vm_compute; reflexivity))
      as (Hne & Hpos & _).
    split; [exact Hne | exact Hpos].
Defined.

(** ** The two tree walks and a pid with two parents *)

(** C8, at an input where the code leaves the claim: when pgrep lists pid 13
    under both 11 and 12, the recursive walk of the /proc variant returns two
    statuses for pid 13, and the history of pid 13 grows by two snapshots in
    that one tick; the walk of main.go on the same tree returns every pid
    once.  Walking the unchanged tree again gives the same pids. *)
Theorem recursive_walk_repeats_a_shared_pid :
  map Proc.Pid (Sample.usageOf Sample.osDiamond []) = [10; 11; 13; 12; 13] /\
  Proc.getUsage 5 Sample.osDiamond 10 [] = Ret (Sample.usageOf Sample.osDiamond []) /\
  ~ NoDup (map Proc.Pid (Sample.usageOf Sample.osDiamond [])) /\
  length <$> (Proc.record ∅ (Sample.usageOf Sample.osDiamond []) !! 13) = Some 2%nat /\
  map Proc.Pid (Sample.usageOf Sample.osDiamond (Sample.usageOf Sample.osDiamond []))
  = [10; 11; 13; 12; 13] /\
  (exists pidMap usage,
     Gops.getUsage 10 Sample.libDiamond ∅ 10 = (pidMap, Some (inr usage)) /\
     map Gops.Pid usage = [10; 11; 12; 13]).
Proof.
  split; [vm_compute; reflexivity |].
  split; [vm_compute; reflexivity |].
  split.
  - replace (map Proc.Pid _) with [10; 11; 13; 12; 13] by (vm_compute; reflexivity).
    intros H. apply NoDup_cons in H as [_ H]. apply NoDup_cons in H as [_ H].
    apply NoDup_cons in H as [Hnot _]. apply Hnot, list_elem_of_In.
    right. left. reflexivity.
  - split; [vm_compute; reflexivity |].
    split; [vm_compute; reflexivity |].
    eexists _, _. split; vm_compute; reflexivity.
Qed.

Section GuardedWalk.

Import Gops.

Variable lib : Library.

Lemma getProcStatus_Pid (p : Z) (s : ProcessStatus) :
  getProcStatus lib p = inr s -> Pid s = p.
Proof.
  unfold getProcStatus. repeat case_match; try discriminate. by intros [= <-].
Qed.

Lemma addChildren_app (children pids : list Z) :
  exists extra, addChildren pids children = (pids ++ extra)%list.
Proof.
  unfold addChildren. revert pids.
  induction children as [| c children IH]; intros pids; simpl.
  - exists []. by rewrite app_nil_r.
  - destruct (existsb _ pids); [apply IH |].
    destruct (IH (pids ++ [c])%list) as [extra ->].
    exists (c :: extra). by rewrite <- app_assoc.
Qed.

Lemma addChildren_NoDup (children pids : list Z) :
  NoDup pids -> NoDup (addChildren pids children).
Proof.
  unfold addChildren. revert pids.
  induction children as [| c children IH]; intros pids Hnd; simpl; [done |].
  destruct (existsb _ pids) eqn:Hex; [by apply IH |].
  apply IH. apply NoDup_app. split; [done |]. split; [| apply NoDup_singleton].
  intros x Hx Hc. apply list_elem_of_singleton in Hc as ->.
  apply not_true_iff_false in Hex. apply Hex.
  apply existsb_exists. exists c. split; [by apply list_elem_of_In | apply Z.eqb_refl].
Qed.

Lemma addChildren_incl (children pids : list Z) (x : Z) :
  In x (addChildren pids children) -> In x pids \/ In x children.
Proof.
  unfold addChildren. revert pids.
  induction children as [| c children IH]; intros pids; simpl; [by left |].
  destruct (existsb _ pids); intros H; apply IH in H as [H | H]; auto.
  apply in_app_or in H as [H | [<- | []]]; auto.
Qed.

(** The invariant of the loop: [pids] has no pid twice, and the statuses
    read so far are those of its first [i] pids. *)
Lemma getUsageLoop_NoDup (fuel : nat) :
  forall pidMap statuses pids i pidMap' usage,
    NoDup pids ->
    map Pid statuses = take i pids ->
    getUsageLoop fuel lib pidMap statuses pids i = (pidMap', Some (inr usage)) ->
    NoDup (map Pid usage).
Proof.
  induction fuel as [| fuel IH];
    intros pidMap statuses pids i pidMap' usage Hnd Hmap; [discriminate |].
  cbn [getUsageLoop]. destruct (pids !! i) as [p |] eqn:Hp.
  - assert (Hi : (i < length pids)%nat) by (by eapply lookup_lt_Some).
    destruct (negb _ && negb _); [discriminate |].
    destruct (getProcStatus lib p) as [err | s] eqn:Hs; [discriminate |].
    apply getProcStatus_Pid in Hs.
    assert (Hmap' : map Pid (statuses ++ [s]) = take (S i) pids).
    { rewrite map_app, Hmap. simpl. rewrite Hs. by rewrite (take_S_r _ _ p). }
    destruct (Children lib p) as [children | |]; [| | discriminate].
    + apply IH; [by apply addChildren_NoDup |].
      destruct (addChildren_app children pids) as [extra ->].
      rewrite take_app_le by lia. exact Hmap'.
    + by apply IH.
  - intros [= <- <-]. apply lookup_ge_None in Hp.
    rewrite Hmap, take_ge by lia. exact Hnd.
Qed.

(** The walk of main.go returns every pid at most once. *)
Lemma Gops_getUsage_NoDup (fuel : nat) (pidMap pidMap' : gset Z) (pid : Z)
      (usage : list ProcessStatus) :
  getUsage fuel lib pidMap pid = (pidMap', Some (inr usage)) ->
  NoDup (map Pid usage).
Proof.
  apply getUsageLoop_NoDup; [apply NoDup_singleton | done].
Qed.

(** When the children all come from the pids of [universe], the loop ends
    within as many iterations as there are pids. *)
Lemma getUsageLoop_ends (universe : list Z) :
  (forall p children, Children lib p = ChildrenOf children -> incl children universe) ->
  forall fuel pidMap statuses pids i,
    NoDup pids -> incl pids universe -> (i <= length pids)%nat ->
    (length universe + 1 <= fuel + i)%nat ->
    (getUsageLoop fuel lib pidMap statuses pids i).2 <> None.
Proof.
  intros Huniv. induction fuel as [| fuel IH];
    intros pidMap statuses pids i Hnd Hincl Hi Hfuel.
  - apply NoDup_ListNoDup in Hnd.
    pose proof (NoDup_incl_length Hnd Hincl). lia.
  - cbn [getUsageLoop]. destruct (pids !! i) as [p |] eqn:Hp; [| done].
    apply lookup_lt_Some in Hp.
    destruct (negb _ && negb _); [done |].
    destruct (getProcStatus lib p) as [err | s]; [done |].
    destruct (Children lib p) as [children | |] eqn:Hch; [| | done].
    + destruct (addChildren_app children pids) as [extra Hextra].
      apply IH; [by apply addChildren_NoDup | | | lia].
      * intros x Hx. apply addChildren_incl in Hx as [Hx | Hx]; [by apply Hincl |].
        by eapply Huniv.
      * rewrite Hextra, length_app. lia.
    + apply IH; [done | done | lia | lia].
Qed.

Lemma Gops_getUsage_ends (universe : list Z) (fuel : nat) (pidMap : gset Z)
      (pid : Z) :
  (forall p children, Children lib p = ChildrenOf children -> incl children universe) ->
  In pid universe -> (length universe < fuel)%nat ->
  (getUsage fuel lib pidMap pid).2 <> None.
Proof.
  intros Huniv Hin Hfuel. apply (getUsageLoop_ends universe Huniv).
  - apply NoDup_singleton.
  - intros x [<- | []]. exact Hin.
  - simpl. lia.
  - lia.
Qed.

(** In main.go as well an error for one pid ends the tick and the run:
    [getUsage] returns the error instead of the statuses, and
    [runRktMonitor] panics with it. *)
Lemma Gops_error_is_fatal (fuel : nat) (ticks : list Library)
      (pidMap pidMap' : gset Z) (root : Z) (err : error)
      (usages : gmap Z (list ProcessStatus)) :
  getUsage fuel lib pidMap root = (pidMap', Some (inl err)) ->
  sampling fuel (lib :: ticks) pidMap root usages = Panicked (LibraryError root).
Proof. intros H. cbn [sampling]. by rewrite H. Qed.

Lemma Gops_unreadable_root (fuel : nat) (pidMap : gset Z) (root : Z) (err : error) :
  NewProcess lib root = true ->
  getProcStatus lib root = inl err ->
  getUsage (S fuel) lib pidMap root = ({[root]} ∪ pidMap, Some (inl err)).
Proof.
  intros Hnew Hst. unfold getUsage. cbn [getUsageLoop]. simpl.
  by rewrite Hnew, andb_false_r, Hst.
Qed.

End GuardedWalk.

(** * Further properties of the code *)

(** ** Padding of the columns *)

Lemma length_append (a b : string) :
  String.length (a +:+ b) = (String.length a + String.length b)%nat.
Proof.
  induction a as [| x a IH]; [done |]. rewrite append_cons. simpl. by rewrite IH.
Qed.

Lemma append_nil_r (a : string) : a +:+ "" = a.
Proof. induction a as [| x a IH]; [done |]. by rewrite append_cons, IH. Qed.

Lemma padLoop_blanks (turns : nat) (str : string) :
  Proc.padLoop turns str = str +:+ blanks turns.
Proof.
  revert str. induction turns as [| turns IH]; intros str; simpl.
  - by rewrite append_nil_r.
  - by rewrite IH, append_assoc.
Qed.

Lemma length_blanks (n : nat) : String.length (blanks n) = n.
Proof. induction n as [| n IH]; simpl; [done | by rewrite IH]. Qed.

(** [pad] appends spaces up to a width of 16 bytes and nothing else: the
    result is the string followed by [16 - len] spaces, its length is the
    larger of 16 and the length of the string, and a string of 16 bytes or
    more comes back unchanged (it is not cut). *)
Theorem pad_fills_to_16 (str : string) :
  Proc.pad str = str +:+ blanks (16 - String.length str) /\
  String.length (Proc.pad str) = Nat.max 16 (String.length str) /\
  Proc.pad (Proc.pad str) = Proc.pad str /\
  ((16 <= String.length str)%nat -> Proc.pad str = str).
Proof.
  assert (Hpad : forall s, Proc.pad s = s +:+ blanks (16 - String.length s)).
  { intros s. apply padLoop_blanks. }
  assert (Hlen : forall s, String.length (Proc.pad s) = Nat.max 16 (String.length s)).
  { intros s. rewrite Hpad, length_append, length_blanks. lia. }
  assert (Hlong : forall s, (16 <= String.length s)%nat -> Proc.pad s = s).
  { intros s Hs. rewrite Hpad. replace (16 - String.length s)%nat with O by lia.
    apply append_nil_r. }
  repeat split; auto.
  apply Hlong. rewrite Hlen. lia.
Qed.

Lemma pad_fills_to_16_witness :
  Proc.pad "0123456789abcdefXYZ" = "0123456789abcdefXYZ".
Proof.
  apply (pad_fills_to_16 "0123456789abcdefXYZ"). simpl. lia.
Defined.

(** ** What the size parser returns *)

Lemma scanUint_range (inp rest : string) (v : Z) :
  fmt.scanUint inp = inr (v, rest) -> 0 <= v <= maxUint64.
Proof.
  unfold fmt.scanUint. intros H.
  repeat case_match; simplify_eq. by eapply ParseUint_range.
Qed.

Lemma parseLabeledSize_panic_kind (size : string) (p : panic) :
  parseLabeledSize size = Panicked p -> p = UnrecognizedSizeLabel size.
Proof.
  rewrite parseLabeledSize_scan.
  destruct (fmt.scanUint size) as [e | [v rest]]; [by intros [= <-] | discriminate].
Qed.

(** [parseLabeledSize] returns a uint64 or panics with the message about
    the size label of its argument; it has no other outcome. *)
Theorem parseLabeledSize_outcomes (size : string) :
  match parseLabeledSize size with
  | Ret v => 0 <= v <= maxUint64
  | Panicked p => p = UnrecognizedSizeLabel size
  | OutOfFuel => False
  end.
Proof.
  rewrite parseLabeledSize_scan.
  destruct (fmt.scanUint size) as [e | [v rest]] eqn:H; [done |].
  by eapply scanUint_range.
Qed.



(** ** The previous status of a pid *)

Lemma lastStatusOf_skip (pid : Z) (l : list Proc.ProcessStatus)
      (init : Proc.ProcessStatus) :
  (forall x, In x l -> Proc.Pid x <> pid) ->
  fold_left (fun lastStatus s => if Proc.Pid s =? pid then s else lastStatus) l init
  = init.
Proof.
  revert init. induction l as [| x l IH]; intros init H; simpl; [done |].
  destruct (Z.eqb_spec (Proc.Pid x) pid) as [Heq | _].
  - exfalso. apply (H x); [by left | done].
  - apply IH. intros y Hy. apply H. by right.
Qed.

(** When the statuses of the previous tick hold several entries for a pid,
    the last of them is the one whose counters are taken. *)
Theorem lastStatusOf_last_wins (pid : Z) (before after : list Proc.ProcessStatus)
        (s : Proc.ProcessStatus) :
  Proc.Pid s = pid ->
  (forall x, In x after -> Proc.Pid x <> pid) ->
  Proc.lastStatusOf pid (before ++ s :: after) = s.
Proof.
  intros Hs Hafter. unfold Proc.lastStatusOf.
  rewrite fold_left_app. cbn [fold_left].
  rewrite <- Hs, Z.eqb_refl, Hs. by apply lastStatusOf_skip.
Qed.

Lemma lastStatusOf_last_wins_witness :
  Proc.lastStatusOf 10 ([Sample.first10] ++ Sample.next10 :: []) = Sample.next10.
Proof.
  apply (lastStatusOf_last_wins 10 [Sample.first10] [] Sample.next10).
  - reflexivity.
  - intros x [].
Defined.

(** ** Bounds of the percentage *)

Lemma percentage_bounded (du dt : Z) :
  0 <= du <= dt -> 0 < dt ->
  0 <= wrap64 (100 * du) / dt <= 100.
Proof.
  intros Hdu Hdt. pose proof (wrap64_range (100 * du)) as Hr.
  assert (Hle : wrap64 (100 * du) <= 100 * du).
  { unfold wrap64. apply Z.mod_le; lia. }
  split; [apply Z.div_pos; lia |].
  apply Z.div_le_upper_bound; lia.
Qed.

(** For counters that did not decrease and a system total that grew, a
    process that used no more ticks than the whole system did has a user
    percentage and a kernel percentage between 0 and 100: neither call
    panics, and the wrap-around of the product never lifts the result above
    100. *)
Theorem percentages_within_100 (ps : Proc.ProcessStatus) :
  0 <= Proc.LastTimeTotal ps < Proc.TimeTotal ps ->
  Proc.TimeTotal ps <= maxUint64 ->
  0 <= Proc.LastUtime ps <= Proc.Utime ps ->
  0 <= Proc.LastStime ps <= Proc.Stime ps ->
  Proc.Utime ps - Proc.LastUtime ps <= Proc.TimeTotal ps - Proc.LastTimeTotal ps ->
  Proc.Stime ps - Proc.LastStime ps <= Proc.TimeTotal ps - Proc.LastTimeTotal ps ->
  (exists u, Proc.GetCPUUsageUser ps = Ret u /\ 0 <= u <= 100) /\
  (exists k, Proc.GetCPUUsageKernel ps = Ret k /\ 0 <= k <= 100).
Proof.
  intros Ht Hmax Hu Hk Hdu Hdk.
  unfold Proc.GetCPUUsageUser, Proc.GetCPUUsageKernel, mul64, sub64.
  rewrite (wrap64_small (Proc.TimeTotal ps - Proc.LastTimeTotal ps)) by lia.
  rewrite (wrap64_small (Proc.Utime ps - Proc.LastUtime ps)) by lia.
  rewrite (wrap64_small (Proc.Stime ps - Proc.LastStime ps)) by lia.
  rewrite !div64_nonzero by lia.
  split; eexists; (split; [reflexivity | apply percentage_bounded; lia]).
Qed.

Lemma percentages_within_100_witness :
  (exists u, Proc.GetCPUUsageUser Sample.next10 = Ret u /\ 0 <= u <= 100) /\
  (exists k, Proc.GetCPUUsageKernel Sample.next10 = Ret k /\ 0 <= k <= 100).
Proof.
  apply (percentages_within_100 Sample.next10); unfold maxUint64; simpl; lia.
Defined.

(** ** Splitting lines and fields *)

Section Splitting.

Import gostrings strconv.

Lemma Split_length (s : string) (sep : ascii) :
  length (Split s sep) = S (countByte sep s).
Proof.
  induction s as [| x s IH]; [done |]. cbn [Split countByte].
  destruct (Ascii.eqb x sep); simpl; [by rewrite IH |].
  destruct (Split s sep); simpl in *; lia.
Qed.

Lemma Split_no_sep (s : string) (sep : ascii) :
  countByte sep s = O -> Split s sep = [s].
Proof.
  induction s as [| x s IH]; [done |]. cbn [Split countByte].
  destruct (Ascii.eqb x sep); [discriminate |]. simpl. intros H.
  by rewrite IH.
Qed.

Lemma Split_app_sep (a b : string) (sep : ascii) :
  countByte sep a = O -> Split (a +:+ String sep b) sep = a :: Split b sep.
Proof.
  induction a as [| x a IH].
  - intros _. rewrite append_nil_l. cbn [Split]. by rewrite Ascii.eqb_refl.
  - cbn [countByte]. rewrite append_cons. cbn [Split].
    destruct (Ascii.eqb x sep); [discriminate |]. simpl. intros H.
    by rewrite IH.
Qed.

Lemma countByte_digits (c : ascii) (s : string) :
  is_digit c = false -> allDigits s = true -> countByte c s = O.
Proof.
  intros Hc. induction s as [| x s IH]; [done |]. simpl.
  intros H. apply andb_true_iff in H as [Hx Hs].
  destruct (Ascii.eqb_spec x c) as [-> | _]; [congruence |]. by rewrite IH.
Qed.

Lemma countByte_app (c : ascii) (a b : string) :
  countByte c (a +:+ b) = (countByte c a + countByte c b)%nat.
Proof.
  induction a as [| x a IH]; [done |]. rewrite append_cons. simpl.
  rewrite IH. lia.
Qed.

Lemma digit_not_sign (c : ascii) :
  is_digit c = true -> Ascii.eqb c "-" = false /\ Ascii.eqb c "+" = false.
Proof.
  intros H. split.
  - destruct (Ascii.eqb_spec c "-"); [subst c; by vm_compute in H | done].
  - destruct (Ascii.eqb_spec c "+"); [subst c; by vm_compute in H | done].
Qed.

Lemma Atoi_minus (s : string) :
  Atoi (String "-" s) =
  match ParseUint s with
  | (_, Some ErrSyntax) => (0, Some ErrSyntax)
  | (un, _) => if 2 ^ 63 <? un then (- 2 ^ 63, Some ErrRange) else (- un, None)
  end.
Proof. reflexivity. Qed.

(** [Atoi] reads back what [Itoa] writes, for every int of 64 bits. *)
Lemma Atoi_Itoa (i : Z) :
  - 2 ^ 63 <= i < 2 ^ 63 -> Atoi (Itoa i) = (i, None).
Proof.
  intros Hi. unfold Itoa.
  pose proof (eq_refl : maxUint64 = 18446744073709551615) as Hmax.
  destruct (Z.ltb_spec i 0) as [Hneg | Hpos].
  - rewrite Atoi_minus, ParseUint_FormatUint by lia.
    replace (2 ^ 63 <? - i) with false by (symmetry; apply Z.ltb_ge; lia).
    f_equal. lia.
  - destruct (FormatUint_nonempty i) as (c & a & Heq).
    pose proof (FormatUint_digits i) as Hd. rewrite Heq in Hd. simpl in Hd.
    apply andb_true_iff in Hd as [Hc _].
    destruct (digit_not_sign c Hc) as [Hminus Hplus].
    pose proof (ParseUint_FormatUint i ltac:(lia)) as Hp. rewrite Heq in Hp.
    rewrite Heq. unfold Atoi. rewrite Hminus, Hplus. simpl (false || false).
    cbv iota. rewrite Hp. simpl (negb false && _).
    replace (2 ^ 63 <=? i) with false by (symmetry; apply Z.leb_gt; lia).
    reflexivity.
Qed.

Lemma Itoa_nonempty (i : Z) : exists c a, Itoa i = String c a.
Proof.
  unfold Itoa. destruct (i <? 0); [eauto | apply FormatUint_nonempty].
Qed.

Lemma Itoa_one_line (i : Z) : countByte "010" (Itoa i) = O.
Proof.
  unfold Itoa. destruct (i <? 0); simpl;
    apply countByte_digits; try reflexivity; apply FormatUint_digits.
Qed.

Lemma Split_pgrepLines (pids : list Z) :
  Split (pgrepLines pids) "010" = (map Itoa pids ++ [""])%list.
Proof.
  induction pids as [| p pids IH]; [done |]. cbn [pgrepLines map].
  rewrite Split_app_sep by apply Itoa_one_line. by rewrite IH.
Qed.

End Splitting.

(** ** Reading the children and the lines of /proc *)

Section ReadingLines.

Import Proc.

Lemma children_fold (pids acc : list Z) :
  Forall (fun p => - 2 ^ 63 <= p < 2 ^ 63) pids ->
  foldM
    (fun pids str =>
       if String.eqb str "" then Ret pids
       else
         match strconv.Atoi str with
         | (childPid, None) => Ret (pids ++ [childPid])%list
         | (_, Some _) => Panicked (NumError str)
         end)
    (map strconv.Itoa pids ++ [""])%list acc
  = Ret (acc ++ pids)%list.
Proof.
  intros H. revert acc. induction H as [| p pids Hp _ IH]; intros acc.
  - simpl. by rewrite app_nil_r.
  - cbn [map app foldM].
    destruct (Itoa_nonempty p) as (c & a & Heq).
    replace (String.eqb (strconv.Itoa p) "") with false by (by rewrite Heq).
    rewrite Atoi_Itoa by done. cbn [bind]. rewrite IH.
    by rewrite <- app_assoc.
Qed.

(** [getChildrenPids] returns the pids that pgrep printed, in their order,
    when pgrep reported no error; and when pgrep printed nothing it returns
    no children, whether pgrep reported an error (its exit status for "no
    process matched") or not. *)
Theorem getChildrenPids_reads_pgrep (os : OS) (pid : Z) (pids : list Z)
        (failed : bool) :
  Forall (fun p => - 2 ^ 63 <= p < 2 ^ 63) pids ->
  pgrep os pid = (pgrepLines pids, failed) ->
  pids = [] \/ failed = false ->
  getChildrenPids os pid = Ret pids.
Proof.
  intros Hrange Hout Hok. unfold getChildrenPids. rewrite Hout.
  destruct pids as [| p pids]; [done |].
  destruct Hok as [? | ->]; [done |].
  destruct (Itoa_nonempty p) as (c & a & Heq).
  replace (String.eqb (pgrepLines (p :: pids)) "") with false
    by (cbn [pgrepLines]; by rewrite Heq).
  rewrite Split_pgrepLines. by rewrite children_fold.
Qed.

Lemma getChildrenPids_reads_pgrep_witness :
  getChildrenPids Sample.osDiamond 10 = Ret [11; 12].
Proof.
  apply (getChildrenPids_reads_pgrep Sample.osDiamond 10 [11; 12] false).
  - repeat constructor; vm_compute; discriminate.
  - vm_compute. reflexivity.
  - right. reflexivity.
Defined.

(** A line of /proc/pid/status that is not empty is refused with the panic
    "couldn't parse" exactly when it does not hold one colon: a line without
    colon, and a line whose value holds a colon as well. *)
Theorem statusLine_wants_one_colon (status : ProcessStatus) (line : string) :
  line <> "" ->
  (statusLine status line = Panicked (CouldNotParse line)
   <-> countByte ":" line <> 1%nat).
Proof.
  intros Hne. apply String.eqb_neq in Hne.
  pose proof (Split_length line ":") as Hlen.
  unfold statusLine. rewrite Hne. split.
  - intros H Hcount. rewrite Hcount in Hlen.
    destruct (gostrings.Split line ":") as [| t0 [| t1 [| t2 l]]]; try discriminate.
    unfold bind, parseUintOrPanic in H.
    repeat case_match; simplify_eq;
      match goal with
      | Hp : parseLabeledSize _ = Panicked _ |- _ =>
          by apply parseLabeledSize_panic_kind in Hp
      end.
  - intros Hcount.
    destruct (gostrings.Split line ":") as [| t0 [| t1 [| t2 l]]]; try done.
    simpl in Hlen. exfalso. apply Hcount. lia.
Qed.

Lemma statusLine_wants_one_colon_witness :
  statusLine zeroStatus "Name:a:b" = Panicked (CouldNotParse "Name:a:b")
  <-> countByte ":" "Name:a:b" <> 1%nat.
Proof.
  apply (statusLine_wants_one_colon zeroStatus "Name:a:b"). discriminate.
Defined.

Lemma add64_fold (ns : list Z) (total : Z) :
  0 <= total <= maxUint64 ->
  fold_left add64 ns total = wrap64 (total + sumZ ns).
Proof.
  revert total. induction ns as [| n ns IH]; intros total Ht; simpl.
  - rewrite Z.add_0_r. symmetry. by apply wrap64_small.
  - rewrite IH by apply wrap64_range. unfold add64, wrap64.
    rewrite Z.add_mod_idemp_l by lia. f_equal. lia.
Qed.

Lemma fields_fold (ns : list Z) (total : Z) :
  Forall (fun n => 0 <= n <= maxUint64) ns ->
  fold_left
    (fun total token =>
       match strconv.ParseUint token with
       | (num, None) => add64 total num
       | (_, Some _) => total
       end)
    (map strconv.FormatUint ns) total
  = fold_left add64 ns total.
Proof.
  intros H. revert total. induction H as [| n ns Hn _ IH]; intros total; [done |].
  cbn [map fold_left]. by rewrite ParseUint_FormatUint, IH.
Qed.

Lemma countByte_spaced (c : ascii) (ns : list Z) :
  strconv.is_digit c = false -> Ascii.eqb " " c = false ->
  countByte c (spaced ns) = O.
Proof.
  intros Hd Hs. induction ns as [| n ns IH]; [done |].
  cbn [spaced countByte]. rewrite Hs, countByte_app, IH.
  rewrite countByte_digits; [done | done | apply FormatUint_digits].
Qed.

Lemma Split_fields (n : Z) (ns : list Z) :
  gostrings.Split (strconv.FormatUint n +:+ spaced ns) " "
  = strconv.FormatUint n :: map strconv.FormatUint ns.
Proof.
  revert n. induction ns as [| m ns IH]; intros n.
  - cbn [spaced]. rewrite append_nil_r. apply Split_no_sep.
    apply countByte_digits; [reflexivity | apply FormatUint_digits].
  - cbn [spaced]. rewrite Split_app_sep, IH; [done |].
    apply countByte_digits; [reflexivity | apply FormatUint_digits].
Qed.

Lemma Split_spaced (ns : list Z) :
  gostrings.Split (spaced ns) " " = "" :: map strconv.FormatUint ns.
Proof.
  destruct ns as [| n ns]; [done |]. cbn [spaced gostrings.Split].
  simpl (Ascii.eqb " " " "). cbv iota. by rewrite Split_fields.
Qed.

(** The total of the system is the sum of the numbers on the line of
    /proc/stat that starts with ["cpu "], added up in uint64; the word [cpu]
    and the empty field after it are skipped.  The lines of the single cores
    ([cpu0] and so on) do not start with ["cpu "] and leave the total as it
    is, so that no tick is counted twice. *)
Theorem statLine_sums_the_cpu_line (total : Z) (ns : list Z) :
  0 <= total <= maxUint64 ->
  Forall (fun n => 0 <= n <= maxUint64) ns ->
  statLine total ("cpu " +:+ spaced ns) = wrap64 (total + sumZ ns) /\
  forall (c : ascii) (rest : string),
    Ascii.eqb c " " = false ->
    statLine total ("cpu" +:+ String c rest) = total.
Proof.
  intros Ht Hns. split.
  - unfold statLine.
    change ("cpu " +:+ spaced ns) with ("cpu" +:+ String " " (spaced ns)).
    replace (gostrings.HasPrefix ("cpu" +:+ String " " (spaced ns)) "cpu ")
      with true.
    2:{ change ("cpu" +:+ String " " (spaced ns))
          with (String "c" (String "p" (String "u" (String " " (spaced ns))))).
        unfold gostrings.HasPrefix. cbn [String.prefix].
        destruct (ascii_dec "c" "c"); [| done].
        destruct (ascii_dec "p" "p"); [| done].
        destruct (ascii_dec "u" "u"); [| done].
        destruct (ascii_dec " " " "); [| done].
        by destruct (spaced ns). }
    cbn [negb]. rewrite Split_no_sep.
    + cbn [fold_left]. rewrite Split_app_sep by reflexivity.
      rewrite Split_spaced. cbn [fold_left].
      change (strconv.ParseUint "cpu") with (0, Some strconv.ErrSyntax).
      change (strconv.ParseUint "") with (0, Some strconv.ErrSyntax).
      cbv iota beta. rewrite fields_fold by done. by apply add64_fold.
    + rewrite countByte_app. change (countByte "009" "cpu") with O.
      cbn [countByte]. simpl (Ascii.eqb " " "009").
      by rewrite countByte_spaced.
  - intros c rest Hc. unfold statLine.
    change ("cpu" +:+ String c rest)
      with (String "c" (String "p" (String "u" (String c rest)))).
    unfold gostrings.HasPrefix. cbn [String.prefix].
    destruct (ascii_dec "c" "c"); [| done].
    destruct (ascii_dec "p" "p"); [| done].
    destruct (ascii_dec "u" "u"); [| done].
    destruct (ascii_dec " " c) as [<- | _]; [discriminate | done].
Qed.

Lemma statLine_sums_the_cpu_line_witness :
  statLine 0 ("cpu " +:+ spaced [400; 0; 0; 600]) = wrap64 (0 + sumZ [400; 0; 0; 600]) /\
  forall (c : ascii) (rest : string),
    Ascii.eqb c " " = false ->
    statLine 0 ("cpu" +:+ String c rest) = 0.
Proof.
  apply (statLine_sums_the_cpu_line 0 [400; 0; 0; 600]).
  - vm_compute. split; discriminate.
  - repeat constructor; vm_compute; discriminate.
Defined.

End ReadingLines.

(** ** The recursive walk: what it returns and when it ends *)

Section RecursiveWalk.

Import Proc.

Lemma foldM_sameOutcome {A B : Type} (R : B -> B -> Prop)
      (f1 f2 : B -> A -> outcome B) (l : list A) :
  (forall b1 b2 a, In a l -> R b1 b2 -> sameOutcome R (f1 b1 a) (f2 b2 a)) ->
  forall b1 b2, R b1 b2 -> sameOutcome R (foldM f1 l b1) (foldM f2 l b2).
Proof.
  induction l as [| a l IH]; intros Hf b1 b2 Hb; [done |]. cbn [foldM].
  pose proof (Hf b1 b2 a (or_introl eq_refl) Hb) as Ha.
  destruct (f1 b1 a), (f2 b2 a); simpl in *; try done.
  apply IH; [| done]. intros ? ? ? ?. apply Hf. by right.
Qed.

Lemma statusLine_reading (s1 s2 : ProcessStatus) (line : string) :
  sameReading s1 s2 -> sameOutcome sameReading (statusLine s1 line) (statusLine s2 line).
Proof.
  unfold sameReading. intros (?&?&?&?&?&?&?&?&?&?&?).
  unfold statusLine, bind.
  repeat case_match; simpl; unfold sameReading; simpl; try done;
    repeat split; congruence.
Qed.

(** The statuses of the previous tick change nothing but the three
    carried-over counters of what [getProcStatus] reads. *)
Lemma getProcStatus_reading (os : OS) (pid : Z) (l1 l2 : list ProcessStatus) :
  sameOutcome sameReading (getProcStatus os pid l1) (getProcStatus os pid l2).
Proof.
  unfold getProcStatus.
  destruct (ReadFile os (procPath pid "status")) as [blob |]; [| done].
  match goal with
  | |- sameOutcome _ (bind (foldM _ ?l ?i1) _) (bind (foldM _ _ ?i2) _) =>
      assert (Hfold : sameOutcome sameReading (foldM statusLine l i1)
                                  (foldM statusLine l i2))
        by (apply foldM_sameOutcome;
            [intros; by apply statusLine_reading | by repeat split]);
      destruct (foldM statusLine l i1) as [s1 | |],
               (foldM statusLine l i2) as [s2 | |]
  end; simpl in Hfold |- *; try done.
  rename Hfold into Hs.
  destruct Hs as (?&?&?&?&?&?&?&?&?&?&Htt).
  destruct (ReadFile os "/proc/stat") as [blob2 |]; [| done].
  rewrite Htt. destruct (_ =? 0); [done |].
  destruct (ReadFile os (procPath pid "stat")) as [blob3 |]; [| done].
  destruct (_ <? 15); [done |].
  destruct (parseUintOrPanic (nth 13 _ _)); simpl; try done.
  destruct (parseUintOrPanic (nth 14 _ _)); simpl; try done;
    repeat split; simpl; congruence.
Qed.

Lemma getUsage_reading (os : OS) (l1 l2 : list ProcessStatus) (fuel : nat) :
  forall root,
    sameOutcome (Forall2 sameReading)
                (getUsage fuel os root l1) (getUsage fuel os root l2).
Proof.
  induction fuel as [| fuel IH]; intros root; [done |]. cbn [getUsage].
  pose proof (getProcStatus_reading os root l1 l2) as Hst.
  destruct (getProcStatus os root l1) as [s1 | |],
           (getProcStatus os root l2) as [s2 | |]; simpl in *; try done.
  destruct (getChildrenPids os root) as [children | |]; simpl; try done.
  match goal with
  | |- sameOutcome _ (bind (foldM ?f1 _ _) _) (bind (foldM ?f2 _ _) _) =>
      assert (Hfold : sameOutcome (Forall2 sameReading)
                                  (foldM f1 children []) (foldM f2 children []))
  end.
  { apply foldM_sameOutcome; [| constructor].
    intros b1 b2 c _ Hb. specialize (IH c).
    destruct (getUsage fuel os c l1), (getUsage fuel os c l2); simpl in *;
      try done. by apply Forall2_app. }
  match goal with
  | |- sameOutcome _ (bind ?m1 _) (bind ?m2 _) => destruct m1, m2
  end; simpl in *; try done.
  by constructor.
Qed.

(** The pids that the recursive walk returns do not depend on the statuses
    of the previous tick: walking the same system again, with any other
    previous statuses, returns statuses for the same pids in the same order,
    equal in every field read in this tick. *)
Theorem getUsage_pids_ignore_history (fuel : nat) (os : OS) (root : Z)
        (l1 l2 usage1 : list ProcessStatus) :
  getUsage fuel os root l1 = Ret usage1 ->
  exists usage2,
    getUsage fuel os root l2 = Ret usage2 /\
    map Pid usage2 = map Pid usage1 /\
    Forall2 sameReading usage1 usage2.
Proof.
  intros H1. pose proof (getUsage_reading os l1 l2 fuel root) as H.
  rewrite H1 in H. destruct (getUsage fuel os root l2) as [usage2 | |]; try done.
  simpl in H. exists usage2. split; [done |]. split; [| done].
  clear H1. induction H as [| s1 s2 u1 u2 Hs _ IH]; [done |].
  simpl. destruct Hs as [Hpid _]. f_equal; [by symmetry | exact IH].
Qed.

Lemma getUsage_pids_ignore_history_witness :
  exists usage2,
    getUsage 5 Sample.os2 10 Sample.tick1 = Ret usage2 /\
    map Pid usage2 = map Pid (Sample.usageOf Sample.os2 []) /\
    Forall2 sameReading (Sample.usageOf Sample.os2 []) usage2.
Proof.
  apply (getUsage_pids_ignore_history 5 Sample.os2 10 [] Sample.tick1).
  vm_compute. reflexivity.
Defined.

(** The recursive walk returns the status of the root first and, in all,
    statuses for exactly the pids that can be reached from the root along
    the child lists of pgrep. *)
Theorem getUsage_returns_the_reachable_pids (fuel : nat) (os : OS) (root : Z)
        (last usage : list ProcessStatus) :
  getUsage fuel os root last = Ret usage ->
  (exists st rest, usage = st :: rest /\ Pid st = root) /\
  forall p, In p (map Pid usage) <-> reaches os root p.
Proof.
  intros Hrun. split.
  - destruct fuel as [| fuel]; [discriminate |].
    destruct (getUsage_unfold _ _ _ _ _ Hrun) as (st & ? & rest & Hst & _ & _ & ->).
    exists st, rest. split; [done |].
    by apply getProcStatus_inv in Hst as [? _].
  - intros p. split.
    + intros Hin. apply in_map_iff in Hin as (st & <- & Hin).
      by destruct (getUsage_sound _ _ _ _ _ _ Hrun Hin).
    + intros Hreach.
      destruct (getUsage_complete _ _ _ _ _ _ Hrun Hreach) as (st & Hin & Hst).
      apply in_map_iff. exists st. split; [| done].
      by apply getProcStatus_inv in Hst as [? _].
Qed.

Lemma getUsage_returns_the_reachable_pids_witness :
  (exists st rest, Sample.tick1 = st :: rest /\ Pid st = 10) /\
  forall p, In p (map Pid Sample.tick1) <-> reaches Sample.os1 10 p.
Proof.
  apply (getUsage_returns_the_reachable_pids 5 Sample.os1 10 [] Sample.tick1).
  vm_compute. reflexivity.
Defined.

End RecursiveWalk.

Section RecursionDepth.

Import Proc.

Lemma parseUintOrPanic_bounded (text : string) : parseUintOrPanic text <> OutOfFuel.
Proof. unfold parseUintOrPanic. by repeat case_match. Qed.

Lemma getProcStatus_bounded (os : OS) (pid : Z) (last : list ProcessStatus) :
  getProcStatus os pid last <> OutOfFuel.
Proof.
  unfold getProcStatus.
  destruct (ReadFile os (procPath pid "status")); [| done].
  match goal with
  | |- bind (foldM statusLine ?l ?i) _ <> _ =>
      pose proof (foldM_bounded statusLine statusLine_bounded l i) as Hb;
      destruct (foldM statusLine l i)
  end; simpl; try done.
  destruct (ReadFile os "/proc/stat"); [| done].
  destruct (_ =? 0); [done |].
  destruct (ReadFile os (procPath pid "stat")); [| done].
  destruct (_ <? 15); [done |].
  pose proof (parseUintOrPanic_bounded (nth 13 (gostrings.Split s1 " ") "")).
  destruct (parseUintOrPanic (nth 13 _ _)); simpl; try done.
  pose proof (parseUintOrPanic_bounded (nth 14 (gostrings.Split s1 " ") "")).
  by destruct (parseUintOrPanic (nth 14 _ _)).
Qed.

Lemma getChildrenPids_bounded (os : OS) (pid : Z) :
  getChildrenPids os pid <> OutOfFuel.
Proof.
  unfold getChildrenPids. destruct (pgrep os pid) as [blob failed].
  destruct (String.eqb blob ""); [done |]. destruct failed; [done |].
  apply foldM_bounded. intros b a. by repeat case_match.
Qed.

Lemma foldM_bounded_in {A B : Type} (f : B -> A -> outcome B) (l : list A) :
  (forall b a, In a l -> f b a <> OutOfFuel) ->
  forall b, foldM f l b <> OutOfFuel.
Proof.
  induction l as [| a l IH]; intros Hf b; simpl; [done |].
  pose proof (Hf b a (or_introl eq_refl)).
  destruct (f b a); simpl; [| done | done].
  apply IH. intros ? ? ?. apply Hf. by right.
Qed.

(** The recursion ends on a tree: when the child lists below the root go at
    most [d] levels deep, a walk that may nest [d] calls or more returns its
    statuses or panics; it is never cut short. *)
Theorem getUsage_ends_on_a_tree (os : OS) (last : list ProcessStatus)
        (fuel d : nat) (root : Z) :
  withinDepth os d root -> (d <= fuel)%nat ->
  getUsage fuel os root last <> OutOfFuel.
Proof.
  revert d root. induction fuel as [| fuel IH]; intros d root Hd Hle.
  - inversion Hd; subst. lia.
  - inversion Hd as [d' ? Hch]; subst. cbn [getUsage].
    pose proof (getProcStatus_bounded os root last).
    destruct (getProcStatus os root last); simpl; try done.
    pose proof (getChildrenPids_bounded os root).
    destruct (getChildrenPids os root) as [children | |] eqn:Hc; simpl; try done.
    assert (Hstep : forall (b : list ProcessStatus) (c : Z),
               In c children ->
               (do sub <- getUsage fuel os c last; Ret (b ++ sub)%list)
               <> OutOfFuel).
    { intros b c Hin.
      pose proof (IH d' c (Hch children c eq_refl Hin) ltac:(lia)).
      by destruct (getUsage fuel os c last). }
    pose proof (foldM_bounded_in _ children Hstep []) as Hfold.
    match goal with
    | |- bind ?m _ <> _ => by destruct m
    end.
Qed.

Lemma getUsage_ends_on_a_tree_witness :
  getUsage 2 Sample.os1 10 [] <> OutOfFuel.
Proof.
  apply (getUsage_ends_on_a_tree Sample.os1 [] 2 2 10); [| lia].
  constructor. intros children c Hch Hin.
  vm_compute in Hch. injection Hch as <-.
  constructor. intros children' c' Hch' Hin'.
  destruct Hin as [<- | [<- | []]]; vm_compute in Hch';
    injection Hch' as <-; destruct Hin'.
Defined.

(** A walk that returns for a pid returns, with no more nesting, for every
    pid reached from it. *)
Lemma getUsage_descends (os : OS) (last : list ProcessStatus) (fuel : nat) :
  forall root usage p,
    getUsage fuel os root last = Ret usage -> reaches os root p ->
    exists fuel' usage',
      (fuel' <= fuel)%nat /\ getUsage fuel' os p last = Ret usage'.
Proof.
  induction fuel as [| fuel IH]; intros root usage p Hrun Hreach; [discriminate |].
  inversion Hreach as [| ? c ? children Hch Hin Hreach']; subst.
  - exists (S fuel), usage. split; [lia | done].
  - apply getUsage_unfold in Hrun as (? & children' & ? & _ & Hch' & Hloop & _).
    rewrite Hch in Hch'. injection Hch' as <-.
    apply children_loop_inv in Hloop as [_ Hall].
    destruct (Hall c Hin) as (sub & Hsub & _).
    destruct (IH c sub p Hsub Hreach') as (fuel' & usage' & Hle & Hrun').
    exists fuel', usage'. split; [lia | done].
Qed.

(** The recursion does not end on a cycle: when the walk from the root
    reaches a pid that is listed again below one of its own children, no
    depth of nesting is enough for the walk to return. *)
Theorem getUsage_never_returns_on_a_cycle (os : OS) (root p c : Z)
        (children : list Z) :
  reaches os root p ->
  getChildrenPids os p = Ret children -> In c children -> reaches os c p ->
  forall fuel last, returns (getUsage fuel os root last) = false.
Proof.
  intros Hroot Hch Hin Hback fuel last.
  assert (Hp : forall n usage, getUsage n os p last <> Ret usage).
  { induction n as [n IHn] using lt_wf_ind. intros usage Hrun.
    destruct n as [| n]; [discriminate |].
    apply getUsage_unfold in Hrun as (? & children' & ? & _ & Hch' & Hloop & _).
    rewrite Hch in Hch'. injection Hch' as <-.
    apply children_loop_inv in Hloop as [_ Hall].
    destruct (Hall c Hin) as (sub & Hsub & _).
    destruct (getUsage_descends _ _ _ _ _ _ Hsub Hback) as (n' & usage' & Hle & Hrun').
    apply (IHn n' ltac:(lia) usage' Hrun'). }
  destruct (getUsage fuel os root last) as [usage | |] eqn:Hrun; try done.
  destruct (getUsage_descends _ _ _ _ _ _ Hrun Hroot) as (n' & usage' & _ & Hrun').
  by apply Hp in Hrun'.
Qed.

Lemma getUsage_never_returns_on_a_cycle_witness :
  returns (getUsage 50 Cases.osCycle 10 []) = false.
Proof.
  apply (getUsage_never_returns_on_a_cycle Cases.osCycle 10 10 11 [11]).
  - apply reaches_here.
  - vm_compute. reflexivity.
  - left. reflexivity.
  - apply (reaches_child _ 11 10 10 [10]).
    + vm_compute. reflexivity.
    + left. reflexivity.
    + apply reaches_here.
Defined.

End RecursionDepth.

(** ** The guarded walk of main.go: what it returns and what it caches *)

Section GuardedWalkResult.

Import Gops.

Variable lib : Library.

Lemma descends_snoc (root p c : Z) (children : list Z) :
  descends lib root p -> Children lib p = ChildrenOf children -> In c children ->
  descends lib root c.
Proof.
  intros H Hch Hin. induction H as [p | p c' q children' Hch' Hin' _ IH].
  - eapply descends_child; [exact Hch | exact Hin | constructor].
  - eapply descends_child; [exact Hch' | exact Hin' | by apply IH].
Qed.

Lemma addChildren_keeps (children pids : list Z) (x : Z) :
  In x pids -> In x (addChildren pids children).
Proof.
  intros H. destruct (addChildren_app children pids) as [extra ->].
  apply in_or_app. by left.
Qed.

Lemma addChildren_adds (children pids : list Z) (c : Z) :
  In c children -> In c (addChildren pids children).
Proof.
  unfold addChildren. revert pids.
  induction children as [| c0 children IH]; intros pids; [done |].
  intros [-> | Hin]; cbn [fold_left].
  - destruct (existsb _ pids) eqn:Hex.
    + apply existsb_exists in Hex as (x & Hx & Heq).
      apply Z.eqb_eq in Heq as ->. by apply (addChildren_keeps children).
    + apply (addChildren_keeps children). apply in_or_app. right. by left.
  - by apply IH.
Qed.

(** The loop keeps [pids] as a prefix, queues only descendants of the root
    and, for every pid it has visited, has queued all its children. *)
Lemma getUsageLoop_closure (root : Z) (fuel : nat) :
  forall pidMap statuses pids i pidMap' usage,
    map Pid statuses = take i pids ->
    (forall p, In p pids -> descends lib root p) ->
    (forall j q children,
        (j < i)%nat -> pids !! j = Some q ->
        Children lib q = ChildrenOf children -> incl children pids) ->
    getUsageLoop fuel lib pidMap statuses pids i = (pidMap', Some (inr usage)) ->
    (exists extra, map Pid usage = (pids ++ extra)%list) /\
    (forall p, In p (map Pid usage) -> descends lib root p) /\
    (forall q children,
        In q (map Pid usage) -> Children lib q = ChildrenOf children ->
        incl children (map Pid usage)).
Proof.
  induction fuel as [| fuel IH];
    intros pidMap statuses pids i pidMap' usage Hmap Hsound Hclosed;
    [discriminate |].
  cbn [getUsageLoop]. destruct (pids !! i) as [p |] eqn:Hp.
  - assert (Hi : (i < length pids)%nat) by (by eapply lookup_lt_Some).
    assert (Hpin : In p pids).
    { apply list_elem_of_In, list_elem_of_lookup. by exists i. }
    destruct (negb _ && negb _); [discriminate |].
    destruct (getProcStatus lib p) as [err | s] eqn:Hs; [discriminate |].
    apply getProcStatus_Pid in Hs.
    assert (Hmap' : map Pid (statuses ++ [s]) = take (S i) pids).
    { rewrite map_app, Hmap. simpl. rewrite Hs. by rewrite (take_S_r _ _ p). }
    destruct (Children lib p) as [children | |] eqn:Hch; [| | discriminate].
    + intros Hrun.
      destruct (addChildren_app children pids) as [extra Hextra].
      apply IH in Hrun as ([extra' Hpre] & Hs' & Hc').
      * split; [| done]. exists (extra ++ extra')%list.
        by rewrite Hpre, Hextra, <- app_assoc.
      * rewrite Hextra, take_app_le by lia. exact Hmap'.
      * intros x Hx. apply addChildren_incl in Hx as [Hx | Hx]; [by apply Hsound |].
        by apply (descends_snoc root p x children); [apply Hsound | |].
      * intros j q cs Hj Hq Hcs x Hx.
        rewrite Hextra, lookup_app_l in Hq by lia.
        destruct (decide (j = i)) as [-> | Hne].
        -- rewrite Hp in Hq. injection Hq as <-.
           rewrite Hch in Hcs. injection Hcs as <-. by apply addChildren_adds.
        -- apply addChildren_keeps.
           by apply (Hclosed j q cs ltac:(lia) Hq Hcs).
    + intros Hrun. apply IH in Hrun; [done | done | done |].
      intros j q cs Hj Hq Hcs.
      destruct (decide (j = i)) as [-> | Hne].
      * rewrite Hp in Hq. injection Hq as <-. congruence.
      * by apply (Hclosed j q cs ltac:(lia) Hq Hcs).
  - intros [= <- <-]. apply lookup_ge_None in Hp.
    rewrite Hmap, take_ge by lia.
    split; [exists []; by rewrite app_nil_r |]. split; [done |].
    intros q cs Hq Hcs.
    apply list_elem_of_In, list_elem_of_lookup in Hq as [j Hj].
    apply (Hclosed j q cs); [| done | done].
    apply lookup_lt_Some in Hj. lia.
Qed.

Lemma Gops_getUsage_head (fuel : nat) (pidMap pidMap' : gset Z) (root : Z)
      (usage : list ProcessStatus) :
  getUsage fuel lib pidMap root = (pidMap', Some (inr usage)) ->
  exists st rest, usage = st :: rest /\ Pid st = root.
Proof.
  intros Hrun. unfold getUsage in Hrun.
  apply (getUsageLoop_closure root) in Hrun as ([extra Hpre] & _ & _).
  - destruct usage as [| st rest]; [discriminate |].
    exists st, rest. split; [done |]. by injection Hpre.
  - done.
  - intros p [<- | []]. constructor.
  - intros j q cs Hj. lia.
Qed.

Lemma descends_closed (l : list Z) :
  (forall q children,
      In q l -> Children lib q = ChildrenOf children -> incl children l) ->
  forall a b, descends lib a b -> In a l -> In b l.
Proof.
  intros Hclosed a b Hab.
  induction Hab as [| q c r children Hch Hin _ IH]; [done |].
  intros Hq. apply IH. by apply (Hclosed q children).
Qed.

Lemma Gops_getUsage_pids (fuel : nat) (pidMap pidMap' : gset Z) (root : Z)
      (usage : list ProcessStatus) :
  getUsage fuel lib pidMap root = (pidMap', Some (inr usage)) ->
  forall p, In p (map Pid usage) <-> descends lib root p.
Proof.
  intros Hrun. unfold getUsage in Hrun.
  apply (getUsageLoop_closure root) in Hrun as ([extra Hpre] & Hsound & Hclosed).
  - intros p. split; [apply Hsound |].
    intros Hdesc. apply (descends_closed _ Hclosed root p Hdesc).
    rewrite Hpre. by left.
  - done.
  - intros p [<- | []]. constructor.
  - intros j q cs Hj. lia.
Qed.

(** The walk of main.go returns the status of the root first and, in all,
    statuses for exactly the pids that descend from the root along the child
    lists of gopsutil. *)
Theorem Gops_getUsage_returns_the_descendants (fuel : nat)
        (pidMap pidMap' : gset Z) (root : Z) (usage : list ProcessStatus) :
  getUsage fuel lib pidMap root = (pidMap', Some (inr usage)) ->
  (exists st rest, usage = st :: rest /\ Pid st = root) /\
  forall p, In p (map Pid usage) <-> descends lib root p.
Proof.
  intros Hrun. split; [by eapply Gops_getUsage_head | by eapply Gops_getUsage_pids].
Qed.

End GuardedWalkResult.

Lemma Gops_getUsage_returns_the_descendants_witness :
  (exists st rest, Cases.walkDiamond = st :: rest /\ Gops.Pid st = 10) /\
  forall p, In p (map Gops.Pid Cases.walkDiamond) <-> descends Sample.libDiamond 10 p.
Proof.
  apply (Gops_getUsage_returns_the_descendants
           Sample.libDiamond 10 ∅ Cases.cacheDiamond 10 Cases.walkDiamond).
  vm_compute. reflexivity.
Defined.

Section WalkCache.

Import Gops.

Variable lib : Library.




End WalkCache.


(** ** The histories of a run *)






Section RootHistory.

Lemma Proc_record_length (usages : gmap Z (list Proc.ProcessStatus))
      (usage : list Proc.ProcessStatus) (pid : Z) :
  historyLength (Proc.record usages usage) pid
  = (historyLength usages pid
     + length (filter (fun s => Proc.Pid s = pid) usage))%nat.
Proof.
  unfold historyLength. rewrite record_lookup.
  destruct (filter _ usage) as [| s new]; simpl; [lia |].
  rewrite length_app. simpl. lia.
Qed.

Lemma Gops_record_lookup (usage : list Gops.ProcessStatus) :
  forall (usages : gmap Z (list Gops.ProcessStatus)) (pid : Z),
    Gops.record usages usage !! pid =
    match filter (fun s => Gops.Pid s = pid) usage with
    | [] => usages !! pid
    | new => Some (default [] (usages !! pid) ++ new)%list
    end.
Proof.
  unfold Gops.record. induction usage as [| s usage IH]; intros usages pid; [done |].
  cbn [fold_left]. rewrite IH.
  destruct (decide (Gops.Pid s = pid)) as [Heq | Hne].
  - rewrite filter_cons_True by done. subst pid. rewrite lookup_insert_eq.
    cbn [default]. destruct (filter _ usage) as [| s' new]; [done |].
    unfold id. by rewrite <- app_assoc.
  - rewrite filter_cons_False by done. by rewrite lookup_insert_ne.
Qed.

Lemma Gops_record_length (usages : gmap Z (list Gops.ProcessStatus))
      (usage : list Gops.ProcessStatus) (pid : Z) :
  historyLength (Gops.record usages usage) pid
  = (historyLength usages pid
     + length (filter (fun s => Gops.Pid s = pid) usage))%nat.
Proof.
  unfold historyLength. rewrite Gops_record_lookup.
  destruct (filter _ usage) as [| s new]; simpl; [lia |].
  rewrite length_app. simpl. lia.
Qed.

Lemma Proc_walk_has_root (fuel : nat) (os : Proc.OS) (root : Z)
      (last usage : list Proc.ProcessStatus) :
  Proc.getUsage fuel os root last = Ret usage ->
  (1 <= length (filter (fun s => Proc.Pid s = root) usage))%nat.
Proof.
  intros Hrun. destruct fuel as [| fuel]; [discriminate |].
  destruct (getUsage_unfold _ _ _ _ _ Hrun) as (st & ? & rest & Hst & _ & _ & ->).
  apply getProcStatus_inv in Hst as [Hpid _].
  rewrite filter_cons_True by done. simpl. lia.
Qed.

Lemma Gops_walk_has_root_once (lib : Gops.Library) (fuel : nat)
      (pidMap pidMap' : gset Z) (root : Z) (usage : list Gops.ProcessStatus) :
  Gops.getUsage fuel lib pidMap root = (pidMap', Some (inr usage)) ->
  length (filter (fun s => Gops.Pid s = root) usage) = 1%nat.
Proof.
  intros Hrun.
  assert (Hnd : NoDup (map Gops.Pid usage)).
  { revert Hrun. apply getUsageLoop_NoDup; [apply NoDup_singleton | done]. }
  destruct (Gops_getUsage_head _ _ _ _ _ _ Hrun) as (st & rest & -> & Hpid).
  rewrite filter_cons_True by done. simpl. f_equal.
  simpl in Hnd. apply NoDup_cons in Hnd as [Hnot _].
  destruct (filter _ rest) as [| x l] eqn:Hf; [done |].
  exfalso. apply Hnot.
  assert (Hx : x ∈ filter (fun s => Gops.Pid s = root) rest)
    by (rewrite Hf; by left).
  apply list_elem_of_filter in Hx as [Hx1 Hx2].
  rewrite Hpid, <- Hx1. apply list_elem_of_In, in_map, list_elem_of_In, Hx2.
Qed.

Lemma Proc_sampling_root (fuel : nat) (verbose : bool) (root : Z)
      (ticks : list Proc.OS) :
  forall usage usages usages',
    Proc.sampling fuel verbose ticks root usage usages = Ret usages' ->
    (historyLength usages root + length ticks <= historyLength usages' root)%nat.
Proof.
  induction ticks as [| os ticks IH]; intros usage usages usages'; simpl.
  - intros [= <-]. lia.
  - destruct (Proc.getUsage fuel os root usage) as [usage' | |] eqn:Hrun; simpl;
      try discriminate.
    destruct (if verbose then Proc.printUsage usage' else Ret tt); simpl;
      try discriminate.
    intros H. apply IH in H. rewrite Proc_record_length in H.
    pose proof (Proc_walk_has_root _ _ _ _ _ Hrun). lia.
Qed.

(** In the /proc variant every tick of a run that returns adds at least one
    snapshot to the history of the root: the count that the report prints as
    "seconds alive" for the root is at least the number of ticks. *)
Theorem Proc_root_seen_in_every_tick (fuel : nat) (verbose : bool)
        (ticks : list Proc.OS) (root : Z)
        (usages : gmap Z (list Proc.ProcessStatus)) :
  Proc.sampling fuel verbose ticks root [] ∅ = Ret usages ->
  (length ticks <= historyLength usages root)%nat.
Proof.
  intros H. apply Proc_sampling_root in H.
  unfold historyLength in H at 1. rewrite lookup_empty in H. simpl in H. lia.
Qed.

Lemma Proc_root_seen_in_every_tick_witness :
  (length [Sample.os1; Sample.os2]
   <= historyLength (Sample.historiesOf [Sample.os1; Sample.os2]) 10)%nat.
Proof.
  apply (Proc_root_seen_in_every_tick 5 false [Sample.os1; Sample.os2] 10).
  vm_compute. reflexivity.
Defined.

Lemma Gops_sampling_root (fuel : nat) (root : Z) (ticks : list Gops.Library) :
  forall pidMap usages usages',
    Gops.sampling fuel ticks pidMap root usages = Ret usages' ->
    (historyLength usages' root <= historyLength usages root + length ticks)%nat /\
    (Forall (fun lib => Gops.NewProcess lib root = true) ticks ->
     historyLength usages' root = (historyLength usages root + length ticks)%nat).
Proof.
  induction ticks as [| lib ticks IH]; intros pidMap usages usages'; simpl.
  - intros [= <-]. split; [lia | intros _; lia].
  - destruct (Gops.getUsage fuel lib pidMap root) as [pidMap' [[err | usage] |]]
      eqn:Hrun; try discriminate.
    pose proof (Gops_walk_has_root_once _ _ _ _ _ _ Hrun) as Hone.
    pose proof (Gops_record_length usages usage root) as Hlen.
    destruct (Gops.NewProcess lib root) eqn:Hnew.
    + intros H. apply IH in H as [Hle Heq]. split; [lia |].
      intros Hall. apply Forall_cons in Hall as [_ Hall]. rewrite Heq by done. lia.
    + intros [= <-]. split; [lia |].
      intros Hall. apply Forall_cons in Hall as [Hall _]. congruence.
Qed.

(** In main.go every tick that is sampled adds exactly one snapshot to the
    history of the root: the "seconds alive" of the root is at most the
    number of ticks, and equal to it when the root was still found after
    every tick. *)
Theorem Gops_root_seen_once_per_tick (fuel : nat) (ticks : list Gops.Library)
        (root : Z) (usages : gmap Z (list Gops.ProcessStatus)) :
  Gops.sampling fuel ticks ∅ root ∅ = Ret usages ->
  (historyLength usages root <= length ticks)%nat /\
  (Forall (fun lib => Gops.NewProcess lib root = true) ticks ->
   historyLength usages root = length ticks).
Proof.
  intros H. apply Gops_sampling_root in H.
  unfold historyLength in H at 2 4. rewrite lookup_empty in H. exact H.
Qed.

Lemma Gops_root_seen_once_per_tick_witness :
  historyLength (Sample.gopsHistoriesOf [Sample.libDiamond; Sample.libDiamond]) 10
  = length [Sample.libDiamond; Sample.libDiamond].
Proof.
  apply (Gops_root_seen_once_per_tick 10 [Sample.libDiamond; Sample.libDiamond] 10).
  - vm_compute. reflexivity.
  - repeat constructor.
Defined.

End RootHistory.

(** ** The report *)

Section Report.

Lemma max_fold (l : list Z) (p : Z) :
  0 <= p ->
  fold_left (fun p r => if p <? r then r else p) l p = Z.max p (maxZ l).
Proof.
  revert p. induction l as [| r l IH]; intros p Hp; simpl; [lia |].
  destruct (Z.ltb_spec p r); rewrite IH by lia; lia.
Qed.

Lemma maxZ_bounds (l : list Z) : 0 <= maxZ l /\ Forall (fun x => x <= maxZ l) l.
Proof.
  induction l as [| x l [IH1 IH2]]; simpl; [split; [lia | constructor] |].
  split; [lia |]. constructor; [lia |].
  eapply Forall_impl; [exact IH2 |]. simpl. intros. lia.
Qed.

Lemma sumZ_le_maxZ (l : list Z) : sumZ l <= Z.of_nat (length l) * maxZ l.
Proof.
  induction l as [| x l IH]; [simpl; lia |].
  pose proof (maxZ_bounds l) as [H0 _].
  cbn [sumZ fold_right length maxZ] in *. fold (sumZ l) (maxZ l). nia.
Qed.

(** The sums that the report loop of main.go builds over one history. *)
Lemma Gops_accumulate_fold (h : list Gops.ProcessStatus)
      (c : Gops.float64) (m p : Z) :
  fold_left Gops.accumulate h (c, m, p)
  = (fold_left (fun c x => PrimFloat.add c (Gops.CPU x)) h c,
     fold_left add64 (map Gops.RSS h) m,
     fold_left (fun p r => if p <? r then r else p) (map Gops.RSS h) p).
Proof.
  revert c m p. induction h as [| x h IH]; intros c m p; [done |].
  cbn [fold_left map]. unfold Gops.accumulate at 2. by rewrite IH.
Qed.

Lemma Gops_summarize_returns (first : Gops.ProcessStatus)
      (rest : list Gops.ProcessStatus) :
  exists s, Gops.summarize (first :: rest) = Ret s.
Proof.
  unfold Gops.summarize.
  destruct (fold_left Gops.accumulate (first :: rest) _) as [[c m] p].
  rewrite div64_nonzero by (simpl; lia). cbn [bind]. eauto.
Qed.

(** The summary that main.go prints for a history: it exists for every
    history that is not empty (nothing in the report loop can panic then),
    counts the snapshots as the seconds alive, takes name and pid from the
    first snapshot, prints as average memory the uint64 sum of the resident
    sizes divided by their number, and as peak their maximum.  When the sum
    does not pass 2^64 - 1, the average is at most the peak. *)
Theorem Gops_summarize_values (first : Gops.ProcessStatus)
        (rest : list Gops.ProcessStatus) :
  let h := first :: rest in
  let sizes := map Gops.RSS h in
  exists s,
    Gops.summarize h = Ret s /\
    Gops.secondsAlive s = Z.of_nat (length h) /\
    Gops.sumName s = Gops.Name first /\ Gops.sumPid s = Gops.Pid first /\
    Gops.avgMem s = formatSize (wrap64 (sumZ sizes) / Z.of_nat (length h)) /\
    Gops.peakMem s = formatSize (maxZ sizes) /\
    (Forall (fun x => 0 <= x) sizes -> sumZ sizes <= maxUint64 ->
     wrap64 (sumZ sizes) / Z.of_nat (length h) <= maxZ sizes).
Proof.
  intros h sizes. unfold Gops.summarize.
  rewrite Gops_accumulate_fold. cbv zeta beta iota.
  rewrite add64_fold by (unfold maxUint64; simpl; lia).
  rewrite max_fold by lia. rewrite Z.add_0_l.
  rewrite div64_nonzero by (subst h; simpl; lia). cbn [bind].
  subst h. cbv iota. eexists. split; [reflexivity |]. cbn.
  repeat split.
  - f_equal. pose proof (maxZ_bounds (map Gops.RSS rest)) as [? _].
    unfold maxZ in *. lia.
  - clear sizes. intros Hpos Hsum. apply Forall_cons in Hpos as [Hfirst Hrest].
    pose proof (maxZ_bounds (map Gops.RSS rest)) as [Hmax _].
    pose proof (sumZ_le_maxZ (map Gops.RSS rest)) as Hle.
    rewrite length_map in Hle. unfold sumZ, maxZ in *.
    assert (0 <= foldr Z.add 0 (map Gops.RSS rest)).
    { clear Hsum Hle Hmax. induction Hrest; simpl; lia. }
    rewrite wrap64_small by lia.
    apply Z.div_le_upper_bound; [lia |]. nia.
Qed.

Lemma Gops_summarize_values_witness :
  exists s,
    Gops.summarize Cases.walkDiamond = Ret s /\
    Gops.secondsAlive s = 4 /\ Gops.sumPid s = 10 /\
    wrap64 (sumZ (map Gops.RSS Cases.walkDiamond)) / 4
    <= maxZ (map Gops.RSS Cases.walkDiamond).
Proof.
  destruct (Gops_summarize_values
              (Gops.mkStatus 10 "proc" PrimFloat.one 4096 10000 0)
              (tl Cases.walkDiamond))
    as (s & Hs & Hlen & _ & Hpid & _ & _ & Hmean).
  exists s. split; [exact Hs |]. split; [exact Hlen |]. split; [exact Hpid |].
  apply Hmean.
  - repeat constructor; vm_compute; discriminate.
  - vm_compute. discriminate.
Defined.

Lemma foldM_report {A S : Type} (summarize : list A -> outcome S)
      (l : list (Z * list A)) :
  (forall e, In e l -> exists s, summarize (snd e) = Ret s) ->
  forall acc,
    exists report,
      foldM (fun report entry =>
               do s <- summarize (snd entry); Ret (report ++ [s])%list) l acc
      = Ret report /\
      length report = (length acc + length l)%nat.
Proof.
  induction l as [| e l IH]; intros Hl acc; simpl.
  - exists acc. split; [done | lia].
  - destruct (Hl e (or_introl eq_refl)) as [s ->]. simpl.
    destruct (IH (fun e' H => Hl e' (or_intror H)) (acc ++ [s])%list)
      as (report & -> & Hlen).
    exists report. split; [done |]. rewrite length_app in Hlen. simpl in Hlen. lia.
Qed.

(** In main.go the report never panics: when the sampling loop returns, so
    does [runRktMonitor], with one summary for every pid that has a
    history. *)
Theorem Gops_report_returns (fuel : nat) (ticks : list Gops.Library) (root : Z)
        (usages : gmap Z (list Gops.ProcessStatus)) :
  Gops.sampling fuel ticks ∅ root ∅ = Ret usages ->
  exists report,
    Gops.runRktMonitor fuel ticks root = Ret report /\
    length report = size usages.
Proof.
  intros Hrun. unfold Gops.runRktMonitor. rewrite Hrun. cbn [bind].
  pose proof (Gops_sampling_nonempty _ _ _ _ _ _ nonEmptyHistories_empty Hrun)
    as Hne.
  destruct (foldM_report Gops.summarize (map_to_list usages)) with (acc := @nil Gops.Summary)
    as (report & Hrep & Hlen).
  - intros [pid h] Hin. apply list_elem_of_In, elem_of_map_to_list in Hin.
    specialize (Hne pid h Hin). destruct h as [| first rest]; [done |].
    apply Gops_summarize_returns.
  - exists report. split; [exact Hrep |].
    rewrite Hlen. simpl. apply length_map_to_list.
Qed.

Lemma Gops_report_returns_witness :
  exists report,
    Gops.runRktMonitor 10 [Sample.libDiamond] 10 = Ret report /\
    length report = size (Sample.gopsHistoriesOf [Sample.libDiamond]).
Proof.
  apply (Gops_report_returns 10 [Sample.libDiamond] 10).
  vm_compute. reflexivity.
Defined.

End Report.

Section ProcReport.

Import Proc.

Lemma GetCPUUsageUser_cases (p : ProcessStatus) :
  (systemDelta p = 0 /\ GetCPUUsageUser p = Panicked DivideByZero) \/
  (systemDelta p <> 0 /\ GetCPUUsageUser p = Ret (userPercent p)).
Proof.
  unfold GetCPUUsageUser, userPercent, div64. fold (systemDelta p).
  destruct (Z.eqb_spec (systemDelta p) 0); [left | right]; done.
Qed.

Lemma accumulate_step (c m p : Z) (x : ProcessStatus) :
  accumulate (c, m, p) x =
  do cpu <- GetCPUUsageUser x;
  Ret (add64 c cpu, add64 m (VmSize x), if p <? VmPeak x then VmPeak x else p).
Proof. reflexivity. Qed.

(** The sums that the report loop builds over one history, or the panic of
    the first percentage that divides by zero. *)
Lemma Proc_accumulate_fold (h : list ProcessStatus) :
  forall c m p,
    match foldM accumulate h (c, m, p) with
    | Ret (c', m', p') =>
        Forall (fun x => systemDelta x <> 0) h /\
        c' = fold_left add64 (map userPercent h) c /\
        m' = fold_left add64 (map VmSize h) m /\
        p' = fold_left (fun p r => if p <? r then r else p) (map VmPeak h) p
    | Panicked e => e = DivideByZero /\ Exists (fun x => systemDelta x = 0) h
    | OutOfFuel => False
    end.
Proof.
  induction h as [| x h IH]; intros c m p; [simpl; by repeat split |].
  cbn [foldM]. rewrite accumulate_step.
  destruct (GetCPUUsageUser_cases x) as [[Hz ->] | [Hnz ->]]; cbn [bind].
  - split; [done | by left].
  - specialize (IH (add64 c (userPercent x)) (add64 m (VmSize x))
                   (if p <? VmPeak x then VmPeak x else p)).
    destruct (foldM accumulate h _) as [[[c' m'] p'] | e |]; [| | done].
    + destruct IH as (Hall & -> & -> & ->). by repeat split; [constructor | ..].
    + destruct IH as [-> Hex]. split; [done | by right].
Qed.

Lemma Proc_summarize_spec (h : list ProcessStatus) :
  match summarize h with
  | Ret s =>
      Forall (fun x => systemDelta x <> 0) h /\
      (exists first rest,
          h = first :: rest /\ sumName s = Name first /\ sumPid s = Pid first) /\
      secondsAlive s = Z.of_nat (length h) /\
      avgCPU s = wrap64 (sumZ (map userPercent h)) / Z.of_nat (length h) /\
      avgMem s = formatSize (wrap64 (sumZ (map VmSize h)) / Z.of_nat (length h)) /\
      peakMem s = formatSize (maxZ (map VmPeak h))
  | Panicked p =>
      p = DivideByZero /\ (h = [] \/ Exists (fun x => systemDelta x = 0) h)
  | OutOfFuel => False
  end.
Proof.
  unfold summarize. pose proof (Proc_accumulate_fold h 0 0 0) as Hfold.
  destruct (foldM accumulate h (0, 0, 0)) as [[[c m] p] | e |]; cbn [bind];
    [| | done].
  - destruct Hfold as (Hall & -> & -> & ->).
    destruct h as [| first rest]; [simpl; split; [done | by left] |].
    rewrite !div64_nonzero by (simpl; lia). cbn [bind].
    rewrite !add64_fold by (unfold maxUint64; simpl; lia).
    rewrite max_fold, !Z.add_0_l by lia. cbn [avgCPU avgMem peakMem sumName sumPid secondsAlive].
    split; [done |]. split; [by exists first, rest |].
    repeat split. f_equal.
    pose proof (maxZ_bounds (map VmPeak (first :: rest))) as [? _]. lia.
  - destruct Hfold as [-> Hex]. split; [done | by right].
Qed.

(** What the report loop of the /proc variant does with one history.  It
    returns a summary exactly for a history that is not empty and holds no
    snapshot with a system delta of zero; the summary counts the snapshots,
    takes name and pid from the first one, and prints the uint64 sums of the
    user percentages and of the virtual sizes divided by that count, and the
    maximum of the peak virtual sizes.  For every other history it panics
    with the division by zero. *)
Theorem Proc_summarize_outcomes (h : list ProcessStatus) :
  match summarize h with
  | Ret s =>
      Forall (fun x => systemDelta x <> 0) h /\
      (exists first rest,
          h = first :: rest /\ sumName s = Name first /\ sumPid s = Pid first) /\
      secondsAlive s = Z.of_nat (length h) /\
      avgCPU s = wrap64 (sumZ (map userPercent h)) / Z.of_nat (length h) /\
      avgMem s = formatSize (wrap64 (sumZ (map VmSize h)) / Z.of_nat (length h)) /\
      peakMem s = formatSize (maxZ (map VmPeak h))
  | Panicked p =>
      p = DivideByZero /\ (h = [] \/ Exists (fun x => systemDelta x = 0) h)
  | OutOfFuel => False
  end.
Proof. exact (Proc_summarize_spec h). Qed.

Lemma foldM_Proc_report (l : list (Z * list ProcessStatus)) :
  forall acc,
    match foldM (fun report entry =>
                   do s <- summarize (snd entry); Ret (report ++ [s])%list) l acc
    with
    | Ret report =>
        length report = (length acc + length l)%nat /\
        Forall (fun e => snd e <> [] /\ Forall (fun x => systemDelta x <> 0) (snd e)) l
    | Panicked p =>
        p = DivideByZero /\
        Exists (fun e => snd e = [] \/ Exists (fun x => systemDelta x = 0) (snd e)) l
    | OutOfFuel => False
    end.
Proof.
  induction l as [| e l IH]; intros acc; [simpl; split; [lia | constructor] |].
  cbn [foldM]. pose proof (Proc_summarize_spec (snd e)) as Hs.
  destruct (summarize (snd e)) as [s | p |]; cbn [bind]; [| | done].
  - specialize (IH (acc ++ [s])%list).
    destruct (foldM _ l _) as [report | p |]; [| | done].
    + destruct IH as [Hlen Hall]. rewrite length_app in Hlen. simpl in *.
      split; [lia |]. constructor; [| done].
      destruct Hs as (Hnz & (first & rest & Heq & _) & _).
      rewrite Heq in *. by split.
    + destruct IH as [-> Hex]. split; [done | by right].
  - destruct Hs as [-> Hbad]. split; [done | by left].
Qed.

(** When the sampling loop of the /proc variant returns, the run ends in a
    report with one summary for every pid that has a history, provided no
    snapshot in any history has a system delta of zero; it ends in the panic
    of a division by zero as soon as one has. *)
Theorem Proc_report_outcomes (fuel : nat) (verbose : bool) (ticks : list OS)
        (root : Z) (usages : gmap Z (list ProcessStatus)) :
  sampling fuel verbose ticks root [] ∅ = Ret usages ->
  match runRktMonitor fuel verbose ticks root with
  | Ret report =>
      length report = size usages /\
      forall pid h, usages !! pid = Some h ->
                    Forall (fun x => systemDelta x <> 0) h
  | Panicked p =>
      p = DivideByZero /\
      exists pid h, usages !! pid = Some h /\
                    Exists (fun x => systemDelta x = 0) h
  | OutOfFuel => False
  end.
Proof.
  intros Hrun. unfold runRktMonitor. rewrite Hrun. cbn [bind].
  pose proof (Proc_sampling_nonempty _ _ _ _ _ _ _ nonEmptyHistories_empty Hrun)
    as Hne.
  pose proof (foldM_Proc_report (map_to_list usages) []) as Hrep.
  destruct (foldM _ (map_to_list usages) []) as [report | p |]; [| | done].
  - destruct Hrep as [Hlen Hall]. split.
    + rewrite Hlen. simpl. apply length_map_to_list.
    + intros pid h Hh. rewrite Forall_forall in Hall.
      apply (Hall (pid, h)). by apply elem_of_map_to_list.
  - destruct Hrep as [-> Hex]. split; [done |].
    apply Exists_exists in Hex as ([pid h] & Hin & Hbad).
    apply elem_of_map_to_list in Hin.
    simpl in Hbad. exists pid, h. split; [done |].
    destruct Hbad as [Hnil | Hbad]; [| done].
    subst h. by specialize (Hne pid [] Hin).
Qed.

End ProcReport.

Lemma Proc_report_outcomes_witness :
  exists pid h,
    Sample.historiesOf [Sample.os1; Sample.os1] !! pid = Some h /\
    Exists (fun x => systemDelta x = 0) h.
Proof.
  pose proof (Proc_report_outcomes 5 false [Sample.os1; Sample.os1] 10
                (Sample.historiesOf [Sample.os1; Sample.os1])
                ltac:(vm_compute; reflexivity)) as H.
  replace (Proc.runRktMonitor 5 false [Sample.os1; Sample.os1] 10)
    with (@Panicked (list Proc.Summary) DivideByZero) in H
    by (vm_compute; reflexivity).
  exact (proj2 H).
Defined.

(** ** The cleanup of main.go *)

Section CleaningUp.

Import Cleanup.

Variable lib : Gops.Library.

(** The first loop keeps [processes] as a prefix, appends only descendants
    of the root and, for every process it has visited, all its children. *)
Lemma collect_closure (root : Z) (fuel : nat) :
  forall processes i res,
    (forall p, In p processes -> descends lib root p) ->
    (forall j q children,
        (j < i)%nat -> processes !! j = Some q ->
        Gops.Children lib q = Gops.ChildrenOf children -> incl children processes) ->
    collect fuel lib processes i = Some (inr res) ->
    (exists extra, res = (processes ++ extra)%list) /\
    (forall p, In p res -> descends lib root p) /\
    (forall q children,
        In q res -> Gops.Children lib q = Gops.ChildrenOf children ->
        incl children res).
Proof.
  induction fuel as [| fuel IH]; intros processes i res Hsound Hclosed;
    [discriminate |].
  cbn [collect]. destruct (processes !! i) as [p |] eqn:Hp.
  - assert (Hi : (i < length processes)%nat) by (by eapply lookup_lt_Some).
    assert (Hpin : In p processes).
    { apply list_elem_of_In, list_elem_of_lookup. by exists i. }
    destruct (Gops.Children lib p) as [children | |] eqn:Hch; [| | discriminate].
    + intros Hrun. apply IH in Hrun as ([extra' Hpre] & Hs' & Hc').
      * split; [| done]. exists (children ++ extra')%list.
        by rewrite Hpre, <- app_assoc.
      * intros x Hx. apply in_app_or in Hx as [Hx | Hx]; [by apply Hsound |].
        by apply (descends_snoc lib root p x children); [apply Hsound | |].
      * intros j q cs Hj Hq Hcs x Hx. apply in_or_app.
        rewrite lookup_app_l in Hq by lia.
        destruct (decide (j = i)) as [-> | Hne].
        -- rewrite Hp in Hq. injection Hq as <-.
           rewrite Hch in Hcs. injection Hcs as <-. by right.
        -- left. by apply (Hclosed j q cs ltac:(lia) Hq Hcs).
    + intros Hrun. apply IH in Hrun; [done | done |].
      intros j q cs Hj Hq Hcs.
      destruct (decide (j = i)) as [-> | Hne].
      * rewrite Hp in Hq. injection Hq as <-. congruence.
      * by apply (Hclosed j q cs ltac:(lia) Hq Hcs).
  - intros [= <-]. apply lookup_ge_None in Hp.
    split; [exists []; by rewrite app_nil_r |]. split; [done |].
    intros q cs Hq Hcs.
    apply list_elem_of_In, list_elem_of_lookup in Hq as [j Hj].
    apply (Hclosed j q cs); [| done | done].
    apply lookup_lt_Some in Hj. lia.
Qed.

Lemma collect_descendants (fuel : nat) (root : Z) (processes : list Z) :
  collect fuel lib [root] 0 = Some (inr processes) ->
  (exists rest, processes = root :: rest) /\
  forall p, In p processes <-> descends lib root p.
Proof.
  intros Hrun.
  apply (collect_closure root) in Hrun as ([extra Hpre] & Hsound & Hclosed).
  - split; [by exists extra |].
    intros p. split; [apply Hsound |].
    intros Hdesc. apply (descends_closed lib _ Hclosed root p Hdesc).
    rewrite Hpre. by left.
  - intros p [<- | []]. constructor.
  - intros j q cs Hj. lia.
Qed.

Lemma killEach_keeps (sig : Signals) (processes : list Z) :
  forall killed0 killed e,
    killEach sig processes killed0 = (killed, e) ->
    forall p, In p killed0 -> In p killed.
Proof.
  induction processes as [| q processes IH]; intros killed0 killed e; simpl.
  - by intros [= <- _].
  - destruct (FindProcess sig killed0 q).
    + destruct (Kill sig killed0 q); [| by intros [= <- _]].
      intros Hrun p Hp. apply (IH _ _ _ Hrun). apply in_or_app. by left.
    + apply IH.
    + by intros [= <- _].
Qed.

(** The second loop sends [Kill] to pids of its list only, and a loop that
    ends without error has killed every process of the list or found it
    finished already. *)
Lemma killEach_covers (sig : Signals) (processes : list Z) :
  forall killed0 killed,
    killEach sig processes killed0 = (killed, None) ->
    (forall p, In p killed -> In p killed0 \/ In p processes) /\
    (forall p, In p processes ->
       In p killed \/ exists before, FindProcess sig before p = AlreadyFinished).
Proof.
  induction processes as [| q processes IH]; intros killed0 killed; simpl.
  - intros [= <-]. split; [by left | intros p []].
  - destruct (FindProcess sig killed0 q) eqn:Hfind; [| | discriminate].
    + destruct (Kill sig killed0 q); [| discriminate].
      intros Hrun. pose proof Hrun as Hrun'. apply IH in Hrun as [Hfrom Hall].
      assert (Hq : In q killed).
      { apply (killEach_keeps _ _ _ _ _ Hrun'). apply in_or_app. right. by left. }
      split.
      * intros p Hp. apply Hfrom in Hp as [Hp | Hp]; [| right; by right].
        apply in_app_or in Hp as [Hp | [<- | []]]; [by left | right; by left].
      * intros p [<- | Hp]; [by left | by apply Hall].
    + intros Hrun. apply IH in Hrun as [Hfrom Hall]. split.
      * intros p Hp. apply Hfrom in Hp as [Hp | Hp]; [by left | right; by right].
      * intros p [<- | Hp]; [right; by exists killed0 | by apply Hall].
Qed.

Lemma killEach_sound (sig : Signals) (processes : list Z) :
  forall killed0 killed e,
    killEach sig processes killed0 = (killed, e) ->
    (forall p, In p killed -> In p killed0 \/ In p processes) /\
    match e with
    | Some (FindError p) | Some (KillError p) => In p processes
    | Some (WalkError _) => False
    | None => True
    end.
Proof.
  induction processes as [| q processes IH]; intros killed0 killed e; simpl.
  - intros [= <- <-]. split; [by left | done].
  - destruct (FindProcess sig killed0 q).
    + destruct (Kill sig killed0 q).
      * intros Hrun. apply IH in Hrun as [Hfrom He]. split.
        -- intros p Hp. apply Hfrom in Hp as [Hp | Hp]; [| right; by right].
           apply in_app_or in Hp as [Hp | [<- | []]]; [by left | right; by left].
        -- destruct e as [[| |] |]; auto.
      * intros [= <- <-]. split; [by left | by left].
    + intros Hrun. apply IH in Hrun as [Hfrom He]. split.
      * intros p Hp. apply Hfrom in Hp as [Hp | Hp]; [by left | right; by right].
      * destruct e as [[| |] |]; auto.
    + intros [= <- <-]. split; [by left | by left].
Qed.

(** What a cleanup that ends has done.  When it ends without error, the
    root was found, [Kill] was sent only to descendants of the root, and
    every descendant was killed or had finished already when it was looked
    up.  When the root is gone or the children of some process cannot be
    listed, it ends with that error before any [Kill] is sent.  When looking
    up or killing a process fails, that process and all killed before it are
    descendants of the root. *)
Theorem killAllChildren_outcomes (fuel : nat) (sig : Signals) (root : Z) :
  match killAllChildren fuel lib sig root with
  | None => True
  | Some (killed, None) =>
      Gops.NewProcess lib root = true /\
      (forall p, In p killed -> descends lib root p) /\
      (forall p, descends lib root p ->
         In p killed \/ exists before, FindProcess sig before p = AlreadyFinished)
  | Some (killed, Some (WalkError _)) => killed = []
  | Some (killed, Some (FindError p)) | Some (killed, Some (KillError p)) =>
      descends lib root p /\ forall q, In q killed -> descends lib root q
  end.
Proof.
  unfold killAllChildren.
  destruct (Gops.NewProcess lib root) eqn:Hnew; cbn [negb]; [| done].
  destruct (collect fuel lib [root] 0) as [[e | processes] |] eqn:Hcol; [done | | done].
  apply collect_descendants in Hcol as [_ Hdesc].
  destruct (killEach sig processes []) as [killed e] eqn:Hkill.
  pose proof (killEach_sound _ _ _ _ _ Hkill) as [Hfrom He].
  assert (Hkilled : forall q, In q killed -> descends lib root q).
  { intros q Hq. apply Hdesc. by destruct (Hfrom q Hq) as [[] | ?]. }
  destruct e as [[e | p | p] |]; [done | | |].
  - split; [by apply Hdesc | done].
  - split; [by apply Hdesc | done].
  - apply killEach_covers in Hkill as [_ Hall].
    split; [done |]. split; [done |].
    intros p Hp. apply Hall. by apply Hdesc.
Qed.

(** The cleanup aims at the processes that the sampler watches: on the same
    process table, the pids that [killAllChildren] collects are the pids
    that [getUsage] returns statuses for. *)
Theorem cleanup_collects_the_sampled_pids (fuel fuel' : nat)
        (pidMap pidMap' : gset Z) (root : Z)
        (usage : list Gops.ProcessStatus) (processes : list Z) :
  Gops.getUsage fuel lib pidMap root = (pidMap', Some (inr usage)) ->
  collect fuel' lib [root] 0 = Some (inr processes) ->
  forall p, In p processes <-> In p (map Gops.Pid usage).
Proof.
  intros Hwalk Hcol p.
  apply collect_descendants in Hcol as [_ Hdesc].
  rewrite Hdesc. symmetry. by eapply Gops_getUsage_pids.
Qed.

(** The enumeration of the cleanup ends on every finite tree: when the
    queue from position [i] on holds roots of finite trees, as many
    iterations as these trees have processes, and one more, are enough. *)
Lemma collect_ends (fuel : nat) :
  forall processes i sizes,
    Forall2 (treeSize lib) (drop i processes) sizes ->
    (list_sum sizes < fuel)%nat ->
    collect fuel lib processes i <> None.
Proof.
  induction fuel as [| fuel IH]; intros processes i sizes Hsizes Hfuel; [lia |].
  cbn [collect]. destruct (processes !! i) as [p |] eqn:Hp; [| done].
  rewrite (drop_S _ _ _ Hp) in Hsizes.
  apply Forall2_cons_inv_l in Hsizes as (n & sizes' & Hn & Hrest & ->).
  simpl in Hfuel.
  destruct (Gops.Children lib p) as [children | |] eqn:Hch; [| | done].
  - inversion Hn as [? Hleaf | ? children' ns Hch' Hns]; subst.
    + by destruct (Hleaf children).
    + rewrite Hch in Hch'. injection Hch' as <-.
      apply (IH _ _ (sizes' ++ ns)%list).
      * rewrite drop_app_le by (apply lookup_lt_Some in Hp; lia).
        by apply Forall2_app.
      * rewrite list_sum_app. lia.
  - apply (IH _ _ sizes'); [done |]. inversion Hn; subst; simpl in *; lia.
Qed.

(** The cleanup ends on every finite tree: when the child lists below the
    root form a tree of [n] processes, more than [n] iterations of the first
    loop are enough for [killAllChildren] to end, with or without error. *)
Theorem killAllChildren_ends_on_a_tree (fuel n : nat) (sig : Signals) (root : Z) :
  treeSize lib root n -> (n < fuel)%nat ->
  killAllChildren fuel lib sig root <> None.
Proof.
  intros Hn Hfuel. unfold killAllChildren.
  destruct (negb _); [done |].
  pose proof (collect_ends fuel [root] 0 [n]) as Hends.
  destruct (collect fuel lib [root] 0) as [[e | processes] |]; [done | done |].
  exfalso. apply Hends; [| simpl; lia | done].
  simpl. by constructor.
Qed.

End CleaningUp.

Lemma treeSize_libTree : treeSize Cases.libTree 10 3.
Proof.
  apply (treeSize_node Cases.libTree 10 [11; 12] [1; 1]%nat); [reflexivity |].
  repeat constructor; intros children H; vm_compute in H; discriminate.
Qed.

Lemma killAllChildren_ends_on_a_tree_witness :
  Cleanup.killAllChildren 4 Cases.libTree Cases.sigAll 10 <> None.
Proof.
  apply (killAllChildren_ends_on_a_tree Cases.libTree 4 3 Cases.sigAll 10).
  - exact treeSize_libTree.
  - lia.
Defined.

Lemma cleanup_collects_the_sampled_pids_witness :
  In 12 [10; 11; 12] <-> In 12 (map Gops.Pid Cases.walkTree).
Proof.
  apply (cleanup_collects_the_sampled_pids Cases.libTree 10 4 ∅ Cases.cacheTree 10).
  - vm_compute. reflexivity.
  - vm_compute. reflexivity.
Defined.

Lemma parseLabeledSize_outcomes_witness : 0 <= 12 <= maxUint64.
Proof.
  pose proof (parseLabeledSize_outcomes "12 kB") as H.
  replace (parseLabeledSize "12 kB") with (@Ret Z 12) in H by (vm_compute; reflexivity).
  exact H.
Defined.

Lemma Proc_summarize_outcomes_witness :
  exists s,
    Proc.summarize [Sample.first10; Sample.next10] = Ret s /\
    Proc.secondsAlive s = 2 /\
    Proc.avgCPU s
    = wrap64 (sumZ (map userPercent [Sample.first10; Sample.next10])) / 2.
Proof.
  pose proof (Proc_summarize_outcomes [Sample.first10; Sample.next10]) as H.
  destruct (Proc.summarize [Sample.first10; Sample.next10]) as [s | p |] eqn:E.
  - exists s. split; [reflexivity |].
    destruct H as (_ & _ & Hlen & Hcpu & _). split; [exact Hlen | exact Hcpu].
  - exfalso. vm_compute in E. discriminate.
  - destruct H.
Defined.

Lemma killAllChildren_outcomes_witness :
  Gops.NewProcess Cases.libTree 10 = true /\
  (forall p, In p [10; 11] -> descends Cases.libTree 10 p) /\
  (forall p, descends Cases.libTree 10 p ->
     In p [10; 11] \/
     exists before, Cleanup.FindProcess Cases.sigAll before p = Cleanup.AlreadyFinished).
Proof.
  pose proof (killAllChildren_outcomes Cases.libTree 4 Cases.sigAll 10) as H.
  replace (Cleanup.killAllChildren 4 Cases.libTree Cases.sigAll 10)
    with (Some ([10; 11], @None Cleanup.error)) in H by (vm_compute; reflexivity).
  exact H.
Defined.

(** ** Walks and sizes, once more *)

(** The walk of main.go visits no pid twice: the statuses it returns carry
    pairwise different pids, whatever the child lists are (a pid listed
    under two parents, or listed twice under one, is visited once). *)
Theorem guarded_walk_has_no_duplicates (lib : Gops.Library) (fuel : nat)
        (pidMap pidMap' : gset Z) (pid : Z) (usage : list Gops.ProcessStatus) :
  Gops.getUsage fuel lib pidMap pid = (pidMap', Some (inr usage)) ->
  NoDup (map Gops.Pid usage).
Proof. apply Gops_getUsage_NoDup. Qed.

Lemma guarded_walk_has_no_duplicates_witness :
  NoDup (map Gops.Pid Cases.walkDiamond).
Proof.
  apply (guarded_walk_has_no_duplicates Sample.libDiamond 10 ∅ Cases.cacheDiamond 10).
  vm_compute. reflexivity.
Defined.

(** The walk of main.go ends: when all children come from the pids of a
    list [universe] that holds the root as well, more iterations than that
    list is long are enough for the walk to return its statuses or an error,
    also when the child lists run in a cycle. *)
Theorem guarded_walk_ends (lib : Gops.Library) (universe : list Z) (fuel : nat)
        (pidMap : gset Z) (pid : Z) :
  (forall p children,
      Gops.Children lib p = Gops.ChildrenOf children -> incl children universe) ->
  In pid universe -> (length universe < fuel)%nat ->
  (Gops.getUsage fuel lib pidMap pid).2 <> None.
Proof. apply Gops_getUsage_ends. Qed.

Lemma guarded_walk_ends_witness :
  (Gops.getUsage 5 Sample.libDiamond ∅ 10).2 <> None.
Proof.
  apply (guarded_walk_ends Sample.libDiamond [10; 11; 12; 13]).
  - intros p children H. unfold Sample.libDiamond, Gops.Children in H.
    repeat case_match; simplify_eq; intros x Hx; simpl in *; tauto.
  - left. reflexivity.
  - simpl. lia.
Defined.

(** Reading back what [formatSize] prints never panics, for any uint64, and
    gives the number in front of the label: the size itself up to 1024
    bytes, and above that the count of kB, mB or gB that was printed. *)
Theorem formatted_size_reads_back_as_its_number (n : Z) :
  0 <= n <= maxUint64 ->
  parseLabeledSize (formatSize n) =
  Ret (if 1024 * 1024 * 1024 <? n then n / (1024 * 1024 * 1024)
       else if 1024 * 1024 <? n then n / (1024 * 1024)
       else if 1024 <? n then n / 1024
       else n).
Proof. apply parseLabeledSize_formatSize. Qed.

Lemma formatted_size_reads_back_as_its_number_witness :
  parseLabeledSize (formatSize 5000) = Ret 4.
Proof.
  rewrite (formatted_size_reads_back_as_its_number 5000).
  - reflexivity.
  - vm_compute. split; discriminate.
Defined.
